(** * REST API helpers (scripts/common/rest_api_helpers.py)

    A shallow embedding of the helper layer: the query primitive, the
    download primitive and the CircleCI pagination, with the HTTP
    transport, the console, the filesystem and the store of Python
    dictionaries as explicit state. *)

From Stdlib Require Import ZArith List String Strings.Byte Lia.
From Stdlib Require Import Sorting.Sorted Sorting.Permutation.
From Stdlib Require Import DecimalString DecimalZ DecimalPos.
From stdpp Require Import base gmap strings list.

Set Warnings "-register-all".
Local Open Scope string_scope.
Local Open Scope list_scope.

(** ** Values *)

(** Decoded JSON, which is also the universe of Python values the helpers
    handle.  Numbers are the integers; an object keeps its members as the
    decoder built them. *)
Inductive json : Type :=
| JNull
| JBool (b : bool)
| JNum (n : Z)
| JStr (s : string)
| JArr (l : list json)
| JObj (members : list (string * json)).

(** The exceptions that can leave the helpers. *)
Inductive exn : Type :=
| AssertionError
| KeyError (key : string)
| TypeError
| HTTPError (status : Z)
| ConnectionError
| JSONDecodeError
| FileAlreadyExists (target : list string)
| IsADirectoryError
| FileNotFoundError
| NotADirectoryError
| PermissionError
| InvalidObject. (* a reference outside the store: no Python program has one *)

Inductive outcome (A : Type) : Type :=
| Ok (a : A)
| Raise (e : exn).
Arguments Ok {A} a.
Arguments Raise {A} e.

(** ** The world outside the helpers *)

(** What [requests] hands back: the status, the body as received, and the
    value [response.json()] decodes it to ([None] when the body is not
    JSON). *)
Record response : Type := Response {
  status_code : Z;
  content : list byte;
  decoded : option json
}.

(** One call of [requests.get]: the url, the dictionary passed as
    [params] (its address in the store and its entries when the call was
    made) and the [stream] flag. *)
Record request : Type := Request {
  req_url : string;
  req_params : option (nat * gmap string json);
  req_stream : bool
}.

(** A line written by [print]. *)
Inductive console_line : Type :=
| Line (text : string)                 (* print(text) *)
| LineJson (indent : Z) (j : json)     (* print(json.dumps(j, indent=indent)) *)
| LineBytes (b : list byte).           (* print(b) for a bytes object *)

(** What a path of the filesystem names: a regular file with its bytes
    or a directory, each with whether it may be written to. *)
Inductive node : Type :=
| File (writable : bool) (data : list byte)
| Dir (writable : bool).

Record world : Type := World {
  store : list (gmap string json);  (* the dict objects, by address *)
  wire : list response;             (* what the transport delivers next, in order *)
  sent : list request;              (* the GET calls made so far, oldest first *)
  stdout : list console_line;       (* the console, oldest line first *)
  files : gmap (list string) node   (* the filesystem, by the parts of a path *)
}.

(** ** Computations: state passing with exceptions *)

Definition Py (A : Type) : Type := world -> outcome A * world.

Definition ret {A} (a : A) : Py A := fun w => (Ok a, w).

Definition raise {A} (e : exn) : Py A := fun w => (Raise e, w).

Definition bind {A B} (m : Py A) (k : A -> Py B) : Py B :=
  fun w =>
    match m w with
    | (Ok a, w') => k a w'
    | (Raise e, w') => (Raise e, w')
    end.

Declare Scope py_scope.
Delimit Scope py_scope with py.
Notation "x <- m ;; k" := (bind m (fun x => k))
  (at level 100, m at next level, right associativity) : py_scope.
Notation "m ;; k" := (bind m (fun _ => k))
  (at level 100, right associativity) : py_scope.
Local Open Scope py_scope.

(** [print] appends one line to the console. *)
Definition print (l : console_line) : Py unit :=
  fun w => (Ok tt, World (store w) (wire w) (sent w) (stdout w ++ [l]) (files w)).

(** Reading a dictionary through its reference. *)
Definition deref (p : nat) : Py (gmap string json) :=
  fun w =>
    match store w !! p with
    | Some d => (Ok d, w)
    | None => (Raise InvalidObject, w)
    end.

(** A dict display [{...}] builds a new object; its address is the next
    free one. *)
Definition alloc (d : gmap string json) : Py nat :=
  fun w => (Ok (length (store w)),
            World (store w ++ [d]) (wire w) (sent w) (stdout w) (files w)).

(** The transport: the call is recorded, then the next response on the
    wire is delivered; with none left the connection fails. *)
Definition transport (r : request) : Py response :=
  fun w =>
    match wire w with
    | resp :: rest =>
        (Ok resp, World (store w) rest (sent w ++ [r]) (stdout w) (files w))
    | [] =>
        (Raise ConnectionError,
         World (store w) [] (sent w ++ [r]) (stdout w) (files w))
    end.

(** [requests.get(url, params=params)] *)
Definition requests_get (url : string) (params : nat) : Py response :=
  d <- deref params ;;
  transport (Request url (Some (params, d)) false).

(** [requests.get(url, stream=True)] *)
Definition requests_get_stream (url : string) : Py response :=
  transport (Request url None true).

(** [response.raise_for_status()]: requests raises HTTPError for the
    client errors 400..499 and the server errors 500..599, and for
    nothing else. *)
Definition is_error_status (r : response) : bool :=
  ((400 <=? status_code r) && (status_code r <? 600))%Z.

Definition raise_for_status (r : response) : Py unit :=
  if is_error_status r
  then raise (HTTPError (status_code r))
  else ret tt.

(** [response.json()] *)
Definition response_json (r : response) : Py json :=
  match decoded r with
  | Some j => ret j
  | None => raise JSONDecodeError
  end.

(** ** query_api *)

Definition query_api (url : string) (params : nat) (debug_requests : bool)
  : Py json :=
  (if debug_requests then print (Line ("REQUEST: " ++ url)%string) else ret tt) ;;
  response <- requests_get url params ;;
  raise_for_status response ;;
  (if debug_requests then
     json_response <- response_json response ;;
     print (Line "========== RESPONSE ==========") ;;
     (match json_response with
      | JNull => print (LineBytes (content response))
      | _ => print (LineJson 4 json_response)
      end) ;;
     print (Line "==============================")
   else ret tt) ;;
  response_json response.

(** ** download_file *)

(** [target_path.parent]: the path without its last part. *)
Definition parent (target_path : list string) : list string :=
  removelast target_path.

(** Whether [open(target_path, 'wb')] succeeds, and the error it raises
    when it does not: a directory cannot be opened for writing, an
    existing file must be writable, and a new file needs a parent that
    exists, is a directory and is writable. *)
Definition open_wb (fs : gmap (list string) node) (target_path : list string)
  : outcome unit :=
  match fs !! target_path with
  | Some (Dir _) => Raise IsADirectoryError
  | Some (File true _) => Ok tt
  | Some (File false _) => Raise PermissionError
  | None =>
      match fs !! parent target_path with
      | Some (Dir true) => Ok tt
      | Some (Dir false) => Raise PermissionError
      | Some (File _ _) => Raise NotADirectoryError
      | None => Raise FileNotFoundError
      end
  end.

(** [open(target_path, 'wb')] followed by [shutil.copyfileobj]: when the
    file can be opened it is created or truncated and receives the
    body. *)
Definition write_file (target_path : list string) (body : list byte)
  : Py unit :=
  fun w =>
    match open_wb (files w) target_path with
    | Ok _ =>
        (Ok tt, World (store w) (wire w) (sent w) (stdout w)
                      (<[target_path := File true body]> (files w)))
    | Raise e => (Raise e, w)
    end.

(** [target_path.exists()]: true of a file and of a directory. *)
Definition path_exists (target_path : list string) : Py bool :=
  fun w => (Ok (bool_decide (is_Some (files w !! target_path))), w).

Definition download_file (url : string) (target_path : list string)
    (overwrite : bool) : Py unit :=
  refused <- (if negb overwrite then path_exists target_path else ret false) ;;
  if (refused : bool)
  then raise (FileAlreadyExists target_path)
  else
    request <- requests_get_stream url ;;
    write_file target_path (content request).

(** ** Subscripts *)

Definition lift {A} (o : outcome A) : Py A := fun w => (o, w).

Fixpoint members_get (key : string) (members : list (string * json))
  : option json :=
  match members with
  | [] => None
  | (k, v) :: rest => if String.eqb k key then Some v else members_get key rest
  end.

(** [obj[key]] with a string key: a dict answers or raises KeyError, any
    other value raises TypeError. *)
Definition subscript (obj : json) (key : string) : outcome json :=
  match obj with
  | JObj members =>
      match members_get key members with
      | Some v => Ok v
      | None => Raise (KeyError key)
      end
  | _ => Raise TypeError
  end.

Definition getitem (obj : json) (key : string) : Py json :=
  lift (subscript obj key).

(** [str(n)] for an int, as an f-string formats it: decimal digits, with
    a minus sign for a negative number. *)
Definition str_int (n : Z) : string := NilZero.string_of_int (Z.to_int n).

(** ** class Github *)

Module Github.

Definition BASE_URL : string := "https://api.github.com".

Record t : Type := Make {
  project_slug : string;
  debug_requests : bool
}.

Definition pull_request_url (self : t) (pr_id : Z) : string :=
  (BASE_URL ++ "/repos/" ++ project_slug self ++ "/pulls/" ++ str_int pr_id)%string.

Definition pull_request (self : t) (pr_id : Z) : Py json :=
  params <- alloc ∅ ;;
  query_api (pull_request_url self pr_id) params (debug_requests self).

End Github.

(** ** class CircleCI *)

Module CircleCI.

Definition DEFAULT_MAX_PAGES : Z := 10.
Definition BASE_URL : string := "https://circleci.com/api/v2".

Record t : Type := Make {
  project_slug : string;
  debug_requests : bool
}.

(** *** paginated_query_api_iterator *)

(** The generator object.  It is either not started, suspended at the
    [yield] (holding the locals that are live there) or finished. *)
Inductive generator : Type :=
| GenCreated (url : string) (params : nat) (max_pages : option Z)
| GenSuspended (url : string) (params : nat) (max_pages : option Z)
    (page_count : Z) (response : json)
| GenFinished.

(** What [next] gives: a yielded value with the generator to resume, or
    StopIteration. *)
Inductive step : Type :=
| Yield (value : json) (rest : generator)
| StopIteration.

(** [{**params, 'page-token': next_page_token}] *)
Definition with_page_token (params : nat) (next_page_token : json) : Py nat :=
  d <- deref params ;;
  alloc (<["page-token" := next_page_token]> d).

(** [max_pages is None or page_count < max_pages] *)
Definition within_limit (max_pages : option Z) (page_count : Z) : bool :=
  match max_pages with
  | None => true
  | Some m => (page_count <? m)%Z
  end.

(** From the loop test to the [yield]. *)
Definition loop_to_yield (self : t) (url : string) (params : nat)
    (max_pages : option Z) (page_count : Z) (next_page_token : json) : Py step :=
  if within_limit max_pages page_count
  then
    params <- match next_page_token with
              | JNull => ret params
              | _ => with_page_token params next_page_token
              end ;;
    response <- query_api url params (debug_requests self) ;;
    items <- getitem response "items" ;;
    ret (Yield items (GenSuspended url params max_pages page_count response))
  else ret StopIteration.

(** [next(generator)]: from the start or from the [yield] to the next
    [yield], to the end, or to an exception. *)
Definition next (self : t) (g : generator) : Py step :=
  match g with
  | GenCreated url params max_pages =>
      d <- deref params ;;
      if bool_decide ("page-token" ∈ dom d)
      then raise AssertionError
      else loop_to_yield self url params max_pages 0 JNull
  | GenSuspended url params max_pages page_count response =>
      next_page_token <- getitem response "next_page_token" ;;
      let page_count := (page_count + 1)%Z in
      match next_page_token with
      | JNull => ret StopIteration
      | _ => loop_to_yield self url params max_pages page_count next_page_token
      end
  | GenFinished => ret StopIteration
  end.

Definition paginated_query_api_iterator (url : string) (params : nat)
    (max_pages : option Z) : generator :=
  GenCreated url params max_pages.

(** *** paginated_query_api *)

(** [operator.add] with a list on the left: the right operand must be a
    list too. *)
Definition operator_add (value : list json) (element : json)
  : outcome (list json) :=
  match element with
  | JArr l => Ok (value ++ l)
  | _ => Raise TypeError
  end.

(** [functools.reduce(operator.add, generator, value)].  The loop runs as
    long as the generator yields; [fuel] bounds the calls of [next], and
    [None] means the bound was reached. *)
Fixpoint reduce_add (fuel : nat) (self : t) (g : generator)
    (value : list json) (w : world) : option (outcome (list json) * world) :=
  match fuel with
  | O => None
  | S fuel' =>
      match next self g w with
      | (Raise e, w') => Some (Raise e, w')
      | (Ok StopIteration, w') => Some (Ok value, w')
      | (Ok (Yield element g'), w') =>
          match operator_add value element with
          | Ok value' => reduce_add fuel' self g' value' w'
          | Raise e => Some (Raise e, w')
          end
      end
  end.

(** Every [yield] has taken a response off the wire, so one call of
    [next] more than there are responses ends the loop. *)
Definition paginated_query_api (self : t) (url : string) (params : nat)
    (max_pages : option Z) (w : world) : option (outcome (list json) * world) :=
  reduce_add (S (length (wire w))) self
    (paginated_query_api_iterator url params max_pages) [] w.

(** *** pipelines, workflows, jobs, artifacts *)

Definition pipelines (self : t) (branch : option string) (w : world)
  : option (outcome (list json) * world) :=
  let d : gmap string json :=
    match branch with
    | Some b => {[ "branch" := JStr b ]}
    | None => ∅
    end in
  match alloc d w with
  | (Ok params, w') =>
      paginated_query_api self
        (BASE_URL ++ "/project/gh/" ++ project_slug self ++ "/pipeline")%string
        params (Some 1%Z) w'
  | (Raise e, w') => Some (Raise e, w')
  end.

Definition workflows (self : t) (pipeline_id : string) (w : world)
  : option (outcome (list json) * world) :=
  match alloc ∅ w with
  | (Ok params, w') =>
      paginated_query_api self
        (BASE_URL ++ "/pipeline/" ++ pipeline_id ++ "/workflow")%string
        params (Some DEFAULT_MAX_PAGES) w'
  | (Raise e, w') => Some (Raise e, w')
  end.

Definition jobs (self : t) (workflow_id : string) (w : world)
  : option (outcome (list json) * world) :=
  match alloc ∅ w with
  | (Ok params, w') =>
      paginated_query_api self
        (BASE_URL ++ "/workflow/" ++ workflow_id ++ "/job")%string
        params (Some DEFAULT_MAX_PAGES) w'
  | (Raise e, w') => Some (Raise e, w')
  end.

Definition artifacts (self : t) (job_number : Z) (w : world)
  : option (outcome (list json) * world) :=
  match alloc ∅ w with
  | (Ok params, w') =>
      paginated_query_api self
        (BASE_URL ++ "/project/gh/" ++ project_slug self ++ "/"
           ++ str_int job_number ++ "/artifacts")%string
        params (Some DEFAULT_MAX_PAGES) w'
  | (Raise e, w') => Some (Raise e, w')
  end.

(** *** latest_item *)

(** Python's [<] on the values a [created_at] takes: two strings compare
    by code point (a string is held as its UTF-8 bytes, whose order is
    the same), two numbers (a bool counts as 0 or 1) by value, and a
    string against a number, or null or an object on either side, raises
    TypeError.  List keys are not modelled: they raise here. *)
Definition as_number (j : json) : option Z :=
  match j with
  | JNum n => Some n
  | JBool b => Some (if b then 1 else 0)%Z
  | _ => None
  end.

Definition py_lt (a b : json) : outcome bool :=
  match a, b with
  | JStr s, JStr t => Ok (String.ltb s t)
  | _, _ =>
      match as_number a, as_number b with
      | Some m, Some n => Ok (m <? n)%Z
      | _, _ => Raise TypeError
      end
  end.

(** [sorted] first computes the key of every item, in order. *)
Fixpoint decorate (items : list json) : outcome (list (json * json)) :=
  match items with
  | [] => Ok []
  | item :: rest =>
      match subscript item "created_at" with
      | Raise e => Raise e
      | Ok k =>
          match decorate rest with
          | Raise e => Raise e
          | Ok l => Ok ((k, item) :: l)
          end
      end
  end.

(** [sorted] is a stable sort that compares keys with [<] only, and the
    list such a sort returns is determined by that; it is embedded as the
    stable insertion sort.  [insert_by_key x l] puts [x], which stood
    before the elements of [l], after those with a smaller key. *)
Fixpoint insert_by_key (x : json * json) (l : list (json * json))
  : outcome (list (json * json)) :=
  match l with
  | [] => Ok [x]
  | y :: l' =>
      match py_lt (fst y) (fst x) with
      | Raise e => Raise e
      | Ok true =>
          match insert_by_key x l' with
          | Raise e => Raise e
          | Ok r => Ok (y :: r)
          end
      | Ok false => Ok (x :: l)
      end
  end.

Fixpoint sort_by_key (l : list (json * json)) : outcome (list (json * json)) :=
  match l with
  | [] => Ok []
  | x :: l' =>
      match sort_by_key l' with
      | Raise e => Raise e
      | Ok s => insert_by_key x s
      end
  end.

(** [sorted(items, key=lambda item: item['created_at'])] *)
Definition sorted (items : list json) : outcome (list json) :=
  match decorate items with
  | Raise e => Raise e
  | Ok l =>
      match sort_by_key l with
      | Raise e => Raise e
      | Ok s => Ok (map snd s)
      end
  end.

Definition latest_item (items : list json) : outcome (option json) :=
  match sorted items with
  | Raise e => Raise e
  | Ok sorted_items =>
      if (0 <? length sorted_items)%nat
      then Ok (sorted_items !! 0%nat)
      else Ok None
  end.

End CircleCI.

(** * Vocabulary of the properties *)

Import CircleCI.

(** A response that is a page: no error status, and a JSON object with
    the list [items] and with [next_page_token] read as [tk] (a value, or
    the KeyError of a missing member). *)
Definition page_with (r : response) (items : list json) (tk : outcome json)
  : Prop :=
  is_error_status r = false /\
  exists j, decoded r = Some j /\
            subscript j "items" = Ok (JArr items) /\
            subscript j "next_page_token" = tk.

Definition is_page (r : response) (pg : list json * json) : Prop :=
  page_with r (fst pg) (Ok (snd pg)).

(** The dictionary a page is requested with, and its address, given the
    token of the page before ([JNull] for the first page). *)
Definition page_params (d : gmap string json) (tok : json) : gmap string json :=
  match tok with
  | JNull => d
  | _ => <["page-token" := tok]> d
  end.

Definition page_params_addr (w : world) (params : nat) (tok : json) : nat :=
  match tok with
  | JNull => params
  | _ => length (store w)
  end.

(** The pages still to come after a page whose token was [tok], when the
    page count after that page is [c]. *)
Fixpoint chain (max_pages : option Z) (tok : json) (c : Z)
    (pages : list (list json * json)) : Prop :=
  match pages with
  | [] => tok = JNull \/ within_limit max_pages c = false
  | pg :: ps =>
      tok <> JNull /\ within_limit max_pages c = true /\
      chain max_pages (snd pg) (c + 1)%Z ps
  end.

(** A page whose token is a string. *)
Definition string_page (p : list json * string) : list json * json :=
  (fst p, JStr (snd p)).

(** A request made with a copy of the base dictionary [d] that did not
    exist when the store had [n0] objects, holding [d] with the token
    merged in. *)
Definition fresh_copy (n0 : nat) (d : gmap string json) (r : request) : Prop :=
  exists a tok,
    req_params r = Some (a, <["page-token" := tok]> d) /\ n0 <= a.

(** The requests of one call, oldest first: the first with the caller's
    dictionary [d] at [params] itself, the later ones each with a fresh
    copy. *)
Definition requests_of_call (url : string) (params : nat)
    (d : gmap string json) (n0 : nat) (new : list request) : Prop :=
  match new with
  | [] => True
  | first :: more =>
      first = Request url (Some (params, d)) false /\
      Forall (fresh_copy n0 d) more
  end.

(** The continuation token a decoded page carries, if it has one, and
    the token a response carries. *)
Definition token_of (j : json) : option json :=
  match subscript j "next_page_token" with
  | Ok tok => Some tok
  | Raise _ => None
  end.

Definition page_token_of (r : response) : option json :=
  match decoded r with
  | Some j => token_of j
  | None => None
  end.

(** The requests that follow the first one, oldest first, when the page
    before carried [tok0] and the responses [ws] are still to come: each
    goes to the url with a dictionary at the next new address that holds
    the base entries [d] and, under 'page-token', the non-null token of
    the page before. *)
Fixpoint follow_ups (url : string) (d : gmap string json) (n : nat)
    (tok0 : option json) (ws : list response) (more : list request)
    {struct more} : Prop :=
  match more with
  | [] => True
  | req :: more' =>
      (exists tok,
         tok0 = Some tok /\ tok <> JNull /\
         req = Request url (Some (n, <["page-token" := tok]> d)) false) /\
      match ws with
      | [] => more' = []
      | r :: ws' => follow_ups url d (S n) (page_token_of r) ws' more'
      end
  end.

(** The dictionary bound to [params] in the loop is the base one, up to
    the token. *)
Definition same_off_token (dp d : gmap string json) : Prop :=
  forall tok : json, <["page-token" := tok]> dp = <["page-token" := tok]> d.

(** [x] sorts no later than [y]: the key of [y] is not below that of [x]. *)
Definition key_le (x y : json * json) : Prop :=
  py_lt (fst y) (fst x) = Ok false.

(** Every item has a [created_at], and any two of these compare. *)
Definition sortable (items : list json) : Prop :=
  forall a b, In a items -> In b items ->
    exists ka kb r,
      subscript a "created_at" = Ok ka /\
      subscript b "created_at" = Ok kb /\
      py_lt ka kb = Ok r.

(** The pages fetched on resuming after a page whose token was [tok],
    when the page count after that page is [c]: each is asked for with a
    non-null token and within the limit. *)
Fixpoint chain_prefix (max_pages : option Z) (tok : json) (c : Z)
    (pages : list (list json * json)) : Prop :=
  match pages with
  | [] => True
  | pg :: ps =>
      tok <> JNull /\ within_limit max_pages c = true /\
      chain_prefix max_pages (snd pg) (c + 1)%Z ps
  end.

(** The entries of the request for each page after the first: the base
    entries with the token of the page before. *)
Definition token_entries (d : gmap string json) (toks : list json)
  : list (option (gmap string json)) :=
  map (fun tok => Some (<["page-token" := tok]> d)) toks.

(** Item [a] was created no later than item [b]. *)
Definition created_at_le (a b : json) : Prop :=
  exists ka kb,
    subscript a "created_at" = Ok ka /\
    subscript b "created_at" = Ok kb /\
    py_lt kb ka = Ok false.

(** Whether a key is a string ([true]) or a number ([false]). *)
Definition key_kind (k : json) : option bool :=
  match k with
  | JStr _ => Some true
  | _ => match as_number k with
         | Some _ => Some false
         | None => None
         end
  end.

(** The entries a request was made with. *)
Definition req_entries (r : request) : option (gmap string json) :=
  snd <$> req_params r.

(** The generator holds a reference into the store. *)
Definition gen_valid (g : generator) (w : world) : Prop :=
  match g with
  | GenCreated _ params _ => is_Some (store w !! params)
  | GenSuspended _ params _ _ _ => is_Some (store w !! params)
  | GenFinished => True
  end.

(** ** Sample inputs *)

(** A world with the empty dictionary at address 0, the given responses
    on the wire, nothing sent or printed, and no file. *)
Definition fresh_world (resps : list response) : world :=
  World [∅] resps [] [] ∅.

Definition sample_client : CircleCI.t := Make "ethereum/solidity" false.

(** A 200 response that decodes to a page (its bytes are not spelled out). *)
Definition sample_page (items : list json) (tok : json) : response :=
  Response 200 []
    (Some (JObj [("items", JArr items); ("next_page_token", tok)])).

(** Three pages, chained by the tokens A and B. *)
Definition three_pages : list response :=
  [ sample_page [JStr "a1"; JStr "a2"] (JStr "A");
    sample_page [JStr "b1"] (JStr "B");
    sample_page [JStr "c1"] JNull ].

(** A world whose dictionary at address 0 already has the reserved key. *)
Definition reserved_world : world :=
  World [{[ "page-token" := JStr "X" ]}] three_pages [] [] ∅.

(** A world with a writable current directory that holds the file
    out.zip, the directory logs and the read-only file lock, and one
    response carrying two bytes. *)
Definition download_world : world :=
  World [] [Response 200 [x50; x4b]%byte None] [] []
        (<[ [] := Dir true ]>
           (<[ ["out.zip"] := File true [x00]%byte ]>
              (<[ ["logs"] := Dir true ]>
                 (<[ ["lock"] := File false [] ]> ∅)))).

Definition two_items : list json :=
  [ JObj [("created_at", JStr "2020-01-01")];
    JObj [("created_at", JStr "2019-01-01")] ].

(** * Properties *)

(** ** Running the primitives *)

Ltac run :=
  unfold query_api, download_file, requests_get, requests_get_stream,
    transport, raise_for_status, response_json, path_exists, write_file,
    getitem, lift, deref, alloc, print, bind, ret, raise.

(** What one call of [query_api] does to the world, whatever its outcome:
    one GET is recorded with the dictionary as it is, one response (if
    any) leaves the wire, and the store and the files stay as they are. *)
Lemma query_api_effect url params debug w d :
  store w !! params = Some d ->
  exists o w',
    query_api url params debug w = (o, w') /\
    store w' = store w /\
    files w' = files w /\
    sent w' = (sent w ++ [Request url (Some (params, d)) false]) /\
    wire w' = tail (wire w) /\
    (debug = false -> stdout w' = stdout w) /\
    o <> Raise AssertionError /\
    (forall j, o = Ok j ->
       exists r, head (wire w) = Some r /\ decoded r = Some j /\
                 is_error_status r = false).
Proof.
  intros Hd. destruct debug; run; simpl; rewrite Hd; simpl.
  all: destruct (wire w) as [|r rest] eqn:Hw; simpl.
  all: try (do 2 eexists; repeat split; try reflexivity; discriminate).
  all: destruct (is_error_status r) eqn:Hs; simpl.
  all: try (do 2 eexists; repeat split; try reflexivity; discriminate).
  all: destruct (decoded r) as [j|] eqn:Hj; simpl.
  all: try (do 2 eexists; repeat split; try reflexivity; discriminate).
  - destruct j; simpl; do 2 eexists; repeat split; try reflexivity;
      try discriminate; intros j' [= <-]; exists r; auto.
  - do 2 eexists; repeat split; try reflexivity; try discriminate.
    intros j' [= <-]; exists r; auto.
Qed.

Lemma query_api_ok url params debug w d r rest j :
  store w !! params = Some d ->
  wire w = r :: rest ->
  is_error_status r = false ->
  decoded r = Some j ->
  exists w',
    query_api url params debug w = (Ok j, w') /\
    store w' = store w /\
    files w' = files w /\
    sent w' = (sent w ++ [Request url (Some (params, d)) false]) /\
    wire w' = rest.
Proof.
  intros Hd Hw Hs Hj.
  destruct debug; run; simpl; rewrite Hd; simpl; rewrite Hw; simpl;
    rewrite Hs; simpl; rewrite Hj; simpl.
  - destruct j; simpl; eexists; repeat split.
  - eexists; repeat split.
Qed.

Lemma query_api_http_error url params debug w d r rest :
  store w !! params = Some d ->
  wire w = r :: rest ->
  is_error_status r = true ->
  fst (query_api url params debug w) = Raise (HTTPError (status_code r)).
Proof.
  intros Hd Hw Hs.
  destruct debug; run; simpl; rewrite Hd; simpl; rewrite Hw; simpl;
    rewrite Hs; reflexivity.
Qed.

(** C9, as amended: when the response has a client or server error status
    (400 to 599), query_api fails with the HTTPError of that status and
    returns no value; when it has a 2xx status and a JSON body, query_api
    returns the decoded body. *)
Theorem query_api_status_and_body url params debug w d r rest :
  store w !! params = Some d ->
  wire w = r :: rest ->
  ((400 <= status_code r < 600)%Z ->
     fst (query_api url params debug w) = Raise (HTTPError (status_code r))) /\
  ((200 <= status_code r < 300)%Z ->
     forall j, decoded r = Some j ->
       fst (query_api url params debug w) = Ok j).
Proof.
  intros Hd Hw. split.
  - intros Hs. eapply query_api_http_error; eauto.
    unfold is_error_status. apply andb_true_intro.
    split; [apply Z.leb_le | apply Z.ltb_lt]; lia.
  - intros Hs j Hj.
    destruct (query_api_ok url params debug w d r rest j Hd Hw) as (w' & E & _);
      auto.
    + unfold is_error_status. apply andb_false_intro1. apply Z.leb_gt. lia.
    + rewrite E. reflexivity.
Qed.

Lemma query_api_status_and_body_witness :
  fst (query_api "u" 0 false
         (fresh_world [Response 404 [] (Some (JStr "Not Found"))]))
    = Raise (HTTPError 404).
Proof.
  apply (query_api_status_and_body "u" 0 false
           (fresh_world [Response 404 [] (Some (JStr "Not Found"))])
           ∅ (Response 404 [] (Some (JStr "Not Found"))) []);
    [reflexivity | reflexivity | simpl; lia].
Defined.

(** C9, as stated, fails: a response with status 300 and a JSON body is
    not a 2xx response, yet query_api raises nothing and returns the
    decoded body. *)
Lemma query_api_status_300_returns :
  let r := Response 300 [] (Some (JArr [JStr "a"; JStr "b"])) in
  ~ (200 <= status_code r < 300)%Z /\
  fst (query_api "u" 0 false (fresh_world [r])) = Ok (JArr [JStr "a"; JStr "b"]).
Proof. simpl. split; [lia | reflexivity]. Qed.

(** C7: with debug on and a successful response whose body is not JSON,
    query_api prints the request line only and fails with the decode
    error: neither marker and no raw bytes reach the console. *)
Theorem query_api_debug_undecodable_body :
  let body := [x6f; x6f; x70; x73]%byte in
  let w := fresh_world [Response 200 body None] in
  fst (query_api "u" 0 true w) = Raise JSONDecodeError /\
  stdout (snd (query_api "u" 0 true w)) = [Line "REQUEST: u"].
Proof. simpl. split; reflexivity. Qed.

(** The raw bytes are printed only for a body that decodes to null. *)
Lemma query_api_debug_null_body url params w d r rest :
  store w !! params = Some d ->
  wire w = r :: rest ->
  is_error_status r = false ->
  decoded r = Some JNull ->
  stdout (snd (query_api url params true w)) =
    (stdout w ++ [Line ("REQUEST: " ++ url)%string;
                  Line "========== RESPONSE ==========";
                  LineBytes (content r);
                  Line "=============================="]).
Proof.
  intros Hd Hw Hs Hj.
  run; simpl; rewrite Hd; simpl; rewrite Hw; simpl; rewrite Hs; simpl;
    rewrite Hj; simpl.
  repeat rewrite <- app_assoc. reflexivity.
Qed.

Lemma query_api_debug_json_body url params w d r rest j :
  store w !! params = Some d ->
  wire w = r :: rest ->
  is_error_status r = false ->
  decoded r = Some j ->
  j <> JNull ->
  stdout (snd (query_api url params true w)) =
    (stdout w ++ [Line ("REQUEST: " ++ url)%string;
                  Line "========== RESPONSE ==========";
                  LineJson 4 j;
                  Line "=============================="]).
Proof.
  intros Hd Hw Hs Hj Hn.
  run; simpl; rewrite Hd; simpl; rewrite Hw; simpl; rewrite Hs; simpl;
    rewrite Hj; simpl.
  destruct j; try congruence; simpl; repeat rewrite <- app_assoc; reflexivity.
Qed.

Lemma query_api_quiet url params w d :
  store w !! params = Some d ->
  stdout (snd (query_api url params false w)) = stdout w /\
  files (snd (query_api url params false w)) = files w /\
  store (snd (query_api url params false w)) = store w.
Proof.
  intros Hd.
  destruct (query_api_effect url params false w d Hd)
    as (o & w' & E & Hst & Hf & _ & _ & Hq & _).
  rewrite E. simpl. auto.
Qed.

(** C5, as amended: when the target exists and overwrite is off,
    download_file raises FileAlreadyExists and leaves the world as it is,
    so no request is made; when the target is an existing regular file
    that may be written and overwrite is on, the GET is made and the file
    then holds the body of the response. *)
Theorem download_file_overwrite_protection url target_path w :
  is_Some (files w !! target_path) ->
  download_file url target_path false w
    = (Raise (FileAlreadyExists target_path), w) /\
  forall old r rest,
    files w !! target_path = Some (File true old) ->
    wire w = r :: rest ->
    exists w',
      download_file url target_path true w = (Ok tt, w') /\
      sent w' = (sent w ++ [Request url None true]) /\
      files w' !! target_path = Some (File true (content r)).
Proof.
  intros Hex. split.
  - run. simpl. rewrite bool_decide_eq_true_2 by exact Hex. reflexivity.
  - intros old r rest Hf Hw. run. simpl. rewrite Hw. simpl.
    unfold open_wb. rewrite Hf.
    eexists. repeat split. simpl. apply lookup_insert_eq.
Qed.

Lemma download_file_overwrite_protection_witness :
  download_file "u" ["out.zip"] false download_world
    = (Raise (FileAlreadyExists ["out.zip"]), download_world) /\
  forall old r rest,
    files download_world !! ["out.zip"] = Some (File true old) ->
    wire download_world = r :: rest ->
    exists w',
      download_file "u" ["out.zip"] true download_world = (Ok tt, w') /\
      sent w' = sent download_world ++ [Request "u" None true] /\
      files w' !! ["out.zip"] = Some (File true (content r)).
Proof.
  apply (download_file_overwrite_protection "u" ["out.zip"] download_world).
  exists (File true [x00]%byte). vm_compute. reflexivity.
Defined.

(** C5, as stated, fails: a target that exists need not be a file that
    can be written.  With overwrite on and a directory as the target the
    GET is made and then IsADirectoryError is raised; with a read-only
    file, PermissionError.  In both cases no file is changed. *)
Lemma download_file_existing_target_not_written :
  is_Some (files download_world !! ["logs"]) /\
  fst (download_file "u" ["logs"] true download_world)
    = Raise IsADirectoryError /\
  sent (snd (download_file "u" ["logs"] true download_world))
    = [Request "u" None true] /\
  files (snd (download_file "u" ["logs"] true download_world))
    = files download_world /\
  is_Some (files download_world !! ["lock"]) /\
  fst (download_file "u" ["lock"] true download_world)
    = Raise PermissionError /\
  files (snd (download_file "u" ["lock"] true download_world))
    = files download_world.
Proof.
  repeat split; try (vm_compute; reflexivity);
    eexists; vm_compute; reflexivity.
Qed.

(** ** Pagination *)

Lemma empty_has_no_token : "page-token" ∉ dom (∅ : gmap string json).
Proof. rewrite dom_empty_L. apply not_elem_of_empty. Qed.

Lemma sample_page_is_page items tok :
  is_page (sample_page items tok) (items, tok).
Proof. split; [reflexivity|]. eexists. repeat split. Qed.

Lemma json_null_dec (j : json) : j = JNull \/ j <> JNull.
Proof. destruct j; auto; right; discriminate. Qed.

Lemma loop_to_yield_page self url params max_pages c tok w d r rest items tk :
  within_limit max_pages c = true ->
  store w !! params = Some d ->
  wire w = r :: rest ->
  page_with r items tk ->
  exists w' j,
    loop_to_yield self url params max_pages c tok w
      = (Ok (Yield (JArr items)
               (GenSuspended url (page_params_addr w params tok) max_pages c j)),
         w') /\
    subscript j "next_page_token" = tk /\
    wire w' = rest /\
    sent w' = (sent w ++ [Request url
                 (Some (page_params_addr w params tok, page_params d tok))
                 false]) /\
    store w' !! page_params_addr w params tok = Some (page_params d tok) /\
    files w' = files w.
Proof.
  intros Hg Hd Hw (Hs & j & Hj & Hi & Ht).
  unfold loop_to_yield. rewrite Hg.
  assert (Hq : forall w1 p1 d1,
    store w1 !! p1 = Some d1 -> wire w1 = r :: rest ->
    exists w',
      (response <- query_api url p1 (debug_requests self) ;;
       items <- getitem response "items" ;;
       ret (Yield items (GenSuspended url p1 max_pages c response))) w1
      = (Ok (Yield (JArr items) (GenSuspended url p1 max_pages c j)), w') /\
      wire w' = rest /\
      sent w' = (sent w1 ++ [Request url (Some (p1, d1)) false]) /\
      store w' = store w1 /\ files w' = files w1).
  { intros w1 p1 d1 Hd1 Hw1.
    destruct (query_api_ok url p1 (debug_requests self) w1 d1 r rest j
                Hd1 Hw1 Hs Hj) as (w' & E & Hst & Hf & Hsent & Hwire).
    exists w'. unfold bind at 1. rewrite E.
    unfold bind, getitem, lift, ret. rewrite Hi. auto. }
  destruct (json_null_dec tok) as [->|Hn].
  - unfold bind at 1, ret at 1. simpl.
    destruct (Hq w params d Hd Hw) as (w' & E & Hwire & Hsent & Hst & Hf).
    exists w', j. rewrite E, Hst. repeat split; auto.
  - set (w1 := World (store w ++ [<["page-token" := tok]> d]) (wire w) (sent w)
                     (stdout w) (files w)).
    assert (E1 : match tok with
                 | JNull => ret params
                 | _ => with_page_token params tok
                 end w = (Ok (length (store w)), w1)).
    { destruct tok; try congruence;
        unfold with_page_token, bind, deref, alloc; rewrite Hd; reflexivity. }
    assert (Hp : page_params_addr w params tok = length (store w))
      by (destruct tok; congruence || reflexivity).
    assert (Hpd : page_params d tok = <["page-token" := tok]> d)
      by (destruct tok; congruence || reflexivity).
    rewrite Hp, Hpd.
    unfold bind at 1. rewrite E1.
    destruct (Hq w1 (length (store w)) (<["page-token" := tok]> d))
      as (w' & E & Hwire & Hsent & Hst & Hf).
    + simpl. apply list_lookup_middle. reflexivity.
    + exact Hw.
    + exists w', j. rewrite E, Hst. repeat split; auto.
      simpl. apply list_lookup_middle. reflexivity.
Qed.

Lemma reduce_add_step fuel self g value w :
  reduce_add (S fuel) self g value w =
    match next self g w with
    | (Raise e, w') => Some (Raise e, w')
    | (Ok StopIteration, w') => Some (Ok value, w')
    | (Ok (Yield element g'), w') =>
        match operator_add value element with
        | Ok value' => reduce_add fuel self g' value' w'
        | Raise e => Some (Raise e, w')
        end
    end.
Proof. reflexivity. Qed.

(** Resuming after a page: the remaining pages are fetched in order and
    their items appended. *)
Lemma reduce_add_suspended self url max_pages :
  forall pages resps,
    Forall2 is_page resps pages ->
    forall fuel tok c params j value w d rest,
      length pages < fuel ->
      subscript j "next_page_token" = Ok tok ->
      chain max_pages tok (c + 1)%Z pages ->
      store w !! params = Some d ->
      wire w = (resps ++ rest) ->
      exists w',
        reduce_add fuel self (GenSuspended url params max_pages c j) value w
          = Some (Ok (value ++ concat (map fst pages)), w') /\
        wire w' = rest /\
        length (sent w') = length (sent w) + length pages.
Proof.
  intros pages resps HF.
  induction HF as [|r pg resps pages Hpg HF IH];
    intros fuel tok c params j value w d rest Hfuel Htok Hch Hd Hw;
    (destruct fuel as [|fuel]; [simpl in Hfuel; lia|]); simpl.
  - unfold getitem, lift, bind. rewrite Htok.
    exists w. rewrite app_nil_r. simpl in Hch, Hw.
    destruct Hch as [->|Hlim].
    + unfold ret. repeat split; auto.
    + unfold loop_to_yield. rewrite Hlim. unfold ret.
      destruct tok; repeat split; auto.
  - destruct Hch as (Hn & Hlim & Hch).
    destruct (loop_to_yield_page self url params max_pages (c + 1)%Z tok w d
                r (resps ++ rest) (fst pg) (Ok (snd pg)) Hlim Hd Hw Hpg)
      as (w1 & j1 & E & Ht1 & Hw1 & Hs1 & Hd1 & _).
    unfold getitem, lift, bind. rewrite Htok.
    assert (E' : match tok with
                 | JNull => ret StopIteration
                 | _ => loop_to_yield self url params max_pages (c + 1)%Z tok
                 end w
                 = (Ok (Yield (JArr (fst pg))
                          (GenSuspended url (page_params_addr w params tok)
                             max_pages (c + 1)%Z j1)), w1))
      by (destruct tok; congruence || exact E).
    rewrite E'. simpl.
    destruct (IH fuel (snd pg) (c + 1)%Z (page_params_addr w params tok) j1
                (value ++ fst pg) w1 (page_params d tok) rest)
      as (w' & E2 & Hw2 & Hs2); auto.
    + simpl in Hfuel. lia.
    + exists w'. rewrite E2, Hs2, Hs1, length_app. simpl.
      rewrite <- app_assoc. repeat split; auto. lia.
Qed.

(** From the start: the first page is requested with the caller's
    dictionary, then the rest follows. *)
Lemma paginated_query_api_pages self url params max_pages w d r resps pg pages
    rest :
  store w !! params = Some d ->
  "page-token" ∉ dom d ->
  within_limit max_pages 0 = true ->
  Forall2 is_page (r :: resps) (pg :: pages) ->
  chain max_pages (snd pg) 1 pages ->
  wire w = (r :: resps ++ rest) ->
  exists w',
    paginated_query_api self url params max_pages w
      = Some (Ok (concat (map fst (pg :: pages))), w') /\
    wire w' = rest /\
    length (sent w') = length (sent w) + length (pg :: pages).
Proof.
  intros Hd Hk Hlim HF Hch Hw.
  apply Forall2_cons_1 in HF as [Hpg HF].
  unfold paginated_query_api, paginated_query_api_iterator.
  rewrite Hw. simpl length. rewrite reduce_add_step. cbn [next].
  unfold bind at 1, deref. rewrite Hd.
  rewrite bool_decide_eq_false_2 by exact Hk.
  destruct (loop_to_yield_page self url params max_pages 0%Z JNull w d
              r (resps ++ rest) (fst pg) (Ok (snd pg)) Hlim Hd Hw Hpg)
    as (w1 & j1 & E & Ht1 & Hw1 & Hs1 & Hd1 & _).
  rewrite E. cbn [operator_add app].
  destruct (reduce_add_suspended self url max_pages pages resps HF
              (S (length (resps ++ rest))) (snd pg) 0%Z params j1 (fst pg) w1 d
              rest) as (w' & E2 & Hw2 & Hs2); auto.
  - rewrite length_app.
    apply Forall2_length in HF. lia.
  - exists w'. change (page_params_addr w params JNull) with params.
    rewrite E2, Hs2, Hs1, length_app. simpl.
    repeat split; auto. lia.
Qed.

Lemma chain_to_null_token m last_items :
  forall (front : list (list json * string)) tok c,
    tok <> JNull ->
    (c + Z.of_nat (length front) < m)%Z ->
    chain (Some m) tok c (map string_page front ++ [(last_items, JNull)]).
Proof.
  induction front as [|p front IH]; intros tok c Hn Hc; simpl in *.
  - repeat split; auto. apply Z.ltb_lt. lia.
  - repeat split; auto.
    + apply Z.ltb_lt. lia.
    + apply IH; [discriminate | lia].
Qed.

Lemma chain_to_limit m :
  forall (pages : list (list json * json)) tok c,
    tok <> JNull ->
    Forall (fun pg => snd pg <> JNull) pages ->
    (c + Z.of_nat (length pages) = m)%Z ->
    chain (Some m) tok c pages.
Proof.
  induction pages as [|pg pages IH]; intros tok c Hn HF Hc; simpl in *.
  - right. apply Z.ltb_ge. lia.
  - apply Forall_cons_1 in HF as [Hpg HF]. repeat split; auto.
    + apply Z.ltb_lt. lia.
    + apply IH; auto. lia.
Qed.

(** C1: when the wire holds the pages of a listing, every page but the
    last with a string token and the last with a null token, and
    max_pages is at least their number, paginated_query_api returns the
    items of all pages, concatenated in page order, after exactly one GET
    per page. *)
Theorem paginated_query_api_all_pages self url params d w
    (front : list (list json * string)) (last_items : list json)
    (resps rest : list response) (m : Z) :
  store w !! params = Some d ->
  "page-token" ∉ dom d ->
  Forall2 is_page resps (map string_page front ++ [(last_items, JNull)]) ->
  wire w = (resps ++ rest) ->
  (Z.of_nat (length resps) <= m)%Z ->
  exists w',
    paginated_query_api self url params (Some m) w
      = Some (Ok (concat (map fst front) ++ last_items), w') /\
    length (sent w') = length (sent w) + length resps /\
    wire w' = rest.
Proof.
  intros Hd Hk HF Hw Hm.
  pose proof (Forall2_length _ _ _ HF) as Hlen.
  rewrite length_app, length_map in Hlen. simpl in Hlen.
  destruct resps as [|r resps]; [simpl in Hlen; lia|].
  assert (Hres : concat (map fst (map string_page front ++ [(last_items, JNull)]))
                 = (concat (map fst front) ++ last_items)).
  { rewrite map_app, concat_app, map_map. simpl. rewrite app_nil_r.
    reflexivity. }
  destruct (map string_page front ++ [(last_items, JNull)]) as [|pg pages] eqn:Hp.
  { destruct front; discriminate. }
  destruct (paginated_query_api_pages self url params (Some m) w d r resps pg
              pages rest Hd Hk) as (w' & E & Hw' & Hs'); auto.
  - apply Z.ltb_lt. simpl in Hm. lia.
  - destruct front as [|p front]; simpl in Hp.
    + injection Hp as <- <-. simpl. auto.
    + injection Hp as <- <-. apply chain_to_null_token; [discriminate|].
      simpl in Hlen. simpl in Hm. lia.
  - exists w'. rewrite E, Hres, Hs'.
    apply Forall2_length in HF. rewrite HF. auto.
Qed.

Lemma paginated_query_api_all_pages_witness :
  exists w',
    paginated_query_api sample_client "u" 0 (Some 10%Z) (fresh_world three_pages)
      = Some (Ok [JStr "a1"; JStr "a2"; JStr "b1"; JStr "c1"], w') /\
    length (sent w') = 3 /\
    wire w' = [].
Proof.
  apply (paginated_query_api_all_pages sample_client "u" 0 ∅
           (fresh_world three_pages)
           [([JStr "a1"; JStr "a2"], "A"); ([JStr "b1"], "B")] [JStr "c1"]
           three_pages [] 10%Z).
  - reflexivity.
  - exact empty_has_no_token.
  - repeat constructor; apply sample_page_is_page.
  - reflexivity.
  - simpl. lia.
Defined.

(** C2: when the wire holds max_pages pages, each with a non-null token
    (so that more pages are on offer), and max_pages is positive,
    paginated_query_api makes exactly max_pages requests and returns the
    items of these pages, concatenated in order, with no error; what else
    is on the wire stays there. *)
Theorem paginated_query_api_page_cap self url params d w
    (pages : list (list json * json)) (resps rest : list response) (m : Z) :
  store w !! params = Some d ->
  "page-token" ∉ dom d ->
  Forall2 is_page resps pages ->
  Forall (fun pg => snd pg <> JNull) pages ->
  wire w = (resps ++ rest) ->
  (0 < m)%Z ->
  Z.of_nat (length resps) = m ->
  exists w',
    paginated_query_api self url params (Some m) w
      = Some (Ok (concat (map fst pages)), w') /\
    length (sent w') = length (sent w) + Z.to_nat m /\
    wire w' = rest.
Proof.
  intros Hd Hk HF Hnn Hw Hpos Hm.
  pose proof (Forall2_length _ _ _ HF) as Hlen.
  destruct resps as [|r resps]; [simpl in Hm; lia|].
  destruct pages as [|pg pages]; [discriminate|].
  apply Forall_cons_1 in Hnn as [Hpg Hnn].
  destruct (paginated_query_api_pages self url params (Some m) w d r resps pg
              pages rest Hd Hk) as (w' & E & Hw' & Hs'); auto.
  - apply Z.ltb_lt. lia.
  - apply chain_to_limit; auto. simpl in *. lia.
  - exists w'. rewrite E, Hs'. repeat split; auto.
    rewrite <- Hlen, <- Hm. lia.
Qed.

Lemma paginated_query_api_page_cap_witness :
  exists w',
    paginated_query_api sample_client "u" 0 (Some 2%Z) (fresh_world three_pages)
      = Some (Ok [JStr "a1"; JStr "a2"; JStr "b1"], w') /\
    length (sent w') = 2 /\
    wire w' = [sample_page [JStr "c1"] JNull].
Proof.
  apply (paginated_query_api_page_cap sample_client "u" 0 ∅
           (fresh_world three_pages)
           [([JStr "a1"; JStr "a2"], JStr "A"); ([JStr "b1"], JStr "B")]
           [sample_page [JStr "a1"; JStr "a2"] (JStr "A");
            sample_page [JStr "b1"] (JStr "B")]
           [sample_page [JStr "c1"] JNull] 2%Z).
  - reflexivity.
  - exact empty_has_no_token.
  - repeat constructor; apply sample_page_is_page.
  - repeat constructor; discriminate.
  - reflexivity.
  - lia.
  - reflexivity.
Defined.

(** C10: with the reserved key absent and max_pages zero or negative,
    paginated_query_api returns the empty list and leaves the world as it
    is: no request, no error. *)
Theorem paginated_query_api_no_pages self url params d w (m : Z) :
  store w !! params = Some d ->
  "page-token" ∉ dom d ->
  (m <= 0)%Z ->
  paginated_query_api self url params (Some m) w = Some (Ok [], w).
Proof.
  intros Hd Hk Hm.
  unfold paginated_query_api, paginated_query_api_iterator.
  rewrite reduce_add_step. cbn [next].
  unfold bind, deref. rewrite Hd.
  rewrite bool_decide_eq_false_2 by exact Hk.
  unfold loop_to_yield, within_limit.
  replace (0 <? m)%Z with false by (symmetry; apply Z.ltb_ge; lia).
  reflexivity.
Qed.

Lemma paginated_query_api_no_pages_witness :
  paginated_query_api sample_client "u" 0 (Some 0%Z) (fresh_world three_pages)
    = Some (Ok [], fresh_world three_pages).
Proof.
  apply (paginated_query_api_no_pages sample_client "u" 0 ∅
           (fresh_world three_pages) 0%Z).
  - reflexivity.
  - exact empty_has_no_token.
  - lia.
Defined.

Lemma subscript_not_assertion j key :
  subscript j key <> Raise AssertionError.
Proof.
  destruct j; simpl; try discriminate.
  destruct (members_get key members); discriminate.
Qed.

(** What the loop body does to the world, whatever its outcome. *)
Lemma loop_to_yield_effect self url params max_pages c tok w d :
  store w !! params = Some d ->
  exists o w' extra,
    loop_to_yield self url params max_pages c tok w = (o, w') /\
    o <> Raise AssertionError /\
    store w' = store w ++ extra /\
    files w' = files w /\
    (sent w' = sent w \/
     sent w' = sent w ++ [Request url
                 (Some (page_params_addr w params tok, page_params d tok))
                 false]) /\
    length (wire w') <= length (wire w) /\
    (forall v g, o = Ok (Yield v g) ->
       length (wire w') < length (wire w) /\
       sent w' = sent w ++ [Request url
                   (Some (page_params_addr w params tok, page_params d tok))
                   false] /\
       store w' !! page_params_addr w params tok = Some (page_params d tok) /\
       exists j,
         g = GenSuspended url (page_params_addr w params tok) max_pages c j).
Proof.
  intros Hd. unfold loop_to_yield.
  destruct (within_limit max_pages c).
  2:{ exists (Ok StopIteration), w, []. rewrite app_nil_r.
      repeat split; auto; discriminate. }
  assert (Hq : forall w1 p1 d1,
    store w1 !! p1 = Some d1 ->
    exists o w',
      (response <- query_api url p1 (debug_requests self) ;;
       items <- getitem response "items" ;;
       ret (Yield items (GenSuspended url p1 max_pages c response))) w1
      = (o, w') /\
      o <> Raise AssertionError /\
      store w' = store w1 /\ files w' = files w1 /\
      sent w' = sent w1 ++ [Request url (Some (p1, d1)) false] /\
      length (wire w') <= length (wire w1) /\
      (forall v g, o = Ok (Yield v g) ->
         length (wire w') < length (wire w1) /\
         exists j, g = GenSuspended url p1 max_pages c j)).
  { intros w1 p1 d1 Hd1.
    destruct (query_api_effect url p1 (debug_requests self) w1 d1 Hd1)
      as (o & w' & E & Hst & Hf & Hsent & Hwire & _ & Hna & Hok).
    assert (Hle : length (wire w') <= length (wire w1))
      by (rewrite Hwire; destruct (wire w1); simpl; lia).
    unfold bind at 1. rewrite E. destruct o as [j|e].
    - destruct (Hok j eq_refl) as (r & Hr & _).
      assert (Hlt : length (wire w') < length (wire w1))
        by (rewrite Hwire; destruct (wire w1); simpl; [discriminate | lia]).
      unfold bind, getitem, lift, ret.
      destruct (subscript j "items") as [v|e] eqn:Hi.
      + do 2 eexists. repeat split; eauto; try discriminate.
        simplify_eq. eauto.
      + do 2 eexists. repeat split; eauto; try discriminate.
        intros [= ->]. exact (subscript_not_assertion _ _ Hi).
    - do 2 eexists. repeat split; eauto; try discriminate.
      intros [= ->]. apply Hna. reflexivity. }
  destruct (json_null_dec tok) as [->|Hn].
  - unfold bind at 1, ret at 1. simpl.
    destruct (Hq w params d Hd) as (o & w' & E & Hna & Hst & Hf & Hs & Hle & Hy).
    exists o, w', []. rewrite app_nil_r, E, Hst.
    repeat split; auto;
      match goal with Hv : _ = Ok (Yield _ _) |- _ => apply Hy in Hv; tauto end.
  - set (w1 := World (store w ++ [<["page-token" := tok]> d]) (wire w) (sent w)
                     (stdout w) (files w)).
    assert (E1 : match tok with
                 | JNull => ret params
                 | _ => with_page_token params tok
                 end w = (Ok (length (store w)), w1)).
    { destruct tok; try congruence;
        unfold with_page_token, bind, deref, alloc; rewrite Hd; reflexivity. }
    assert (Hp : page_params_addr w params tok = length (store w))
      by (destruct tok; congruence || reflexivity).
    assert (Hpd : page_params d tok = <["page-token" := tok]> d)
      by (destruct tok; congruence || reflexivity).
    rewrite Hp, Hpd.
    unfold bind at 1. rewrite E1.
    assert (Hd1 : store w1 !! length (store w) = Some (<["page-token" := tok]> d))
      by (simpl; apply list_lookup_middle; reflexivity).
    destruct (Hq w1 (length (store w)) (<["page-token" := tok]> d) Hd1)
      as (o & w' & E & Hna & Hst & Hf & Hs & Hle & Hy).
    exists o, w', [<["page-token" := tok]> d]. rewrite E, Hst.
    repeat split; auto;
      match goal with Hv : _ = Ok (Yield _ _) |- _ => apply Hy in Hv; tauto end.
Qed.

(** C3: when the caller's dictionary already has the key 'page-token',
    the first step of the iterator raises AssertionError and leaves the
    world as it is, so no request is made, and so does
    paginated_query_api; when it has not, the assertion passes: the step
    is the loop from page count 0 and does not raise AssertionError. *)
Theorem iterator_reserved_key_assertion self url params max_pages w d :
  store w !! params = Some d ->
  ("page-token" ∈ dom d ->
     next self (paginated_query_api_iterator url params max_pages) w
       = (Raise AssertionError, w) /\
     paginated_query_api self url params max_pages w
       = Some (Raise AssertionError, w)) /\
  ("page-token" ∉ dom d ->
     next self (paginated_query_api_iterator url params max_pages) w
       = loop_to_yield self url params max_pages 0 JNull w /\
     fst (next self (paginated_query_api_iterator url params max_pages) w)
       <> Raise AssertionError).
Proof.
  intros Hd.
  unfold paginated_query_api, paginated_query_api_iterator.
  rewrite reduce_add_step. cbn [next]. unfold bind at 1 2 3 4, deref.
  rewrite Hd. split; intros Hk.
  - rewrite bool_decide_eq_true_2 by exact Hk. split; reflexivity.
  - rewrite bool_decide_eq_false_2 by exact Hk. split; [reflexivity|].
    destruct (loop_to_yield_effect self url params max_pages 0%Z JNull w d Hd)
      as (o & w' & extra & E & Hna & _).
    rewrite E. exact Hna.
Qed.

Lemma iterator_reserved_key_assertion_witness :
  next sample_client (paginated_query_api_iterator "u" 0 (Some 10%Z))
       reserved_world
    = (Raise AssertionError, reserved_world) /\
  paginated_query_api sample_client "u" 0 (Some 10%Z) reserved_world
    = Some (Raise AssertionError, reserved_world).
Proof.
  apply (iterator_reserved_key_assertion sample_client "u" 0 (Some 10%Z)
           reserved_world {[ "page-token" := JStr "X" ]}).
  - reflexivity.
  - apply elem_of_dom. exists (JStr "X"). apply lookup_singleton_eq.
Defined.

(** C8, as amended: a page whose next_page_token is null is yielded
    after one request and the next step ends the iteration normally with
    no further request; a page with no next_page_token member is yielded
    after one request as well, and the next step raises KeyError, again
    with no further request. *)
Theorem last_page_null_or_missing_token self url params max_pages c tok w d r
    rest items tk :
  within_limit max_pages c = true ->
  store w !! params = Some d ->
  wire w = r :: rest ->
  page_with r items tk ->
  tk = Ok JNull \/ tk = Raise (KeyError "next_page_token") ->
  exists w' g,
    loop_to_yield self url params max_pages c tok w
      = (Ok (Yield (JArr items) g), w') /\
    length (sent w') = length (sent w) + 1 /\
    wire w' = rest /\
    next self g w' =
      (match tk with
       | Ok _ => Ok StopIteration
       | Raise e => Raise e
       end, w').
Proof.
  intros Hlim Hd Hw Hpg Htk.
  destruct (loop_to_yield_page self url params max_pages c tok w d r rest items
              tk Hlim Hd Hw Hpg) as (w' & j & E & Ht & Hw' & Hs & _).
  exists w'. eexists. split; [exact E|]. rewrite Hs, length_app. simpl.
  repeat split; auto.
  unfold bind, getitem, lift. rewrite Ht.
  destruct Htk as [-> | ->]; reflexivity.
Qed.

Lemma last_page_null_or_missing_token_witness :
  exists w' g,
    loop_to_yield sample_client "u" 0 (Some 10%Z) 0 JNull
        (fresh_world [sample_page [JStr "c1"] JNull])
      = (Ok (Yield (JArr [JStr "c1"]) g), w') /\
    length (sent w') = 1 /\
    wire w' = [] /\
    next sample_client g w' = (Ok StopIteration, w').
Proof.
  apply (last_page_null_or_missing_token sample_client "u" 0 (Some 10%Z) 0%Z
           JNull (fresh_world [sample_page [JStr "c1"] JNull]) ∅
           (sample_page [JStr "c1"] JNull) [] [JStr "c1"] (Ok JNull)).
  - reflexivity.
  - reflexivity.
  - reflexivity.
  - apply (sample_page_is_page [JStr "c1"] JNull).
  - left. reflexivity.
Defined.

(** C8, as stated, fails: for a single page without the next_page_token
    member the call ends in KeyError, not in a result. *)
Lemma missing_token_raises_key_error :
  let r := Response 200 [] (Some (JObj [("items", JArr [JNum 1])])) in
  fst <$> paginated_query_api (Make "ethereum/solidity" false) "u" 0
            (Some 10%Z) (fresh_world [r])
    = Some (Raise (KeyError "next_page_token")).
Proof. vm_compute. reflexivity. Qed.

Lemma reduce_add_frame self (d : gmap string json) (n0 : nat) :
  forall fuel url params max_pages c j value w dp,
    length (wire w) < fuel ->
    store w !! params = Some dp ->
    same_off_token dp d ->
    n0 <= length (store w) ->
    exists o w' new extra,
      reduce_add fuel self (GenSuspended url params max_pages c j) value w
        = Some (o, w') /\
      store w' = store w ++ extra /\
      files w' = files w /\
      sent w' = sent w ++ new /\
      Forall (fresh_copy n0 d) new.
Proof.
  induction fuel as [|fuel IH]; intros url params max_pages c j value w dp
    Hfuel Hd Hsame Hn0; [lia|].
  rewrite reduce_add_step. cbn [next].
  unfold bind, getitem, lift.
  destruct (subscript j "next_page_token") as [tok|e].
  2:{ exists (Raise e), w, [], []. rewrite !app_nil_r. repeat split; auto. }
  destruct (json_null_dec tok) as [->|Hn].
  { exists (Ok value), w, [], []. rewrite !app_nil_r. repeat split; auto. }
  destruct (loop_to_yield_effect self url params max_pages (c + 1)%Z tok w dp Hd)
    as (o & w1 & extra & E & _ & Hst & Hf & Hs & Hle & Hy).
  assert (E' : match tok with
               | JNull => ret StopIteration
               | _ => loop_to_yield self url params max_pages (c + 1)%Z tok
               end w = (o, w1))
    by (destruct tok; congruence || exact E).
  rewrite E'.
  assert (Hp : page_params_addr w params tok = length (store w))
    by (destruct tok; congruence || reflexivity).
  assert (Hpd : page_params dp tok = <["page-token" := tok]> d)
    by (rewrite <- Hsame; destruct tok; congruence || reflexivity).
  rewrite Hp, Hpd in Hs, Hy.
  assert (Hnew : exists new1, sent w1 = sent w ++ new1 /\
                              Forall (fresh_copy n0 d) new1).
  { destruct Hs as [Hs|Hs].
    - exists []. rewrite app_nil_r. auto.
    - eexists. split; [exact Hs|]. constructor; [|constructor].
      exists (length (store w)), tok. simpl. auto. }
  destruct Hnew as (new1 & Hs1 & Hfresh1).
  destruct o as [[v g|]|e].
  - destruct (Hy v g eq_refl) as (Hlt & _ & Hd1 & j1 & ->).
    destruct (operator_add value v) as [value'|e].
    + destruct (IH url (length (store w)) max_pages (c + 1)%Z j1 value' w1
                  (<["page-token" := tok]> d))
        as (o2 & w2 & new2 & extra2 & E2 & Hst2 & Hf2 & Hs2 & Hfresh2).
      * lia.
      * exact Hd1.
      * intros tok'. apply insert_insert_eq.
      * rewrite Hst, length_app. lia.
      * exists o2, w2, (new1 ++ new2), (extra ++ extra2).
        rewrite E2, Hst2, Hst, Hf2, Hf, Hs2, Hs1, !app_assoc.
        repeat split; auto. apply Forall_app; auto.
    + exists (Raise e), w1, new1, extra. repeat split; auto.
  - exists (Ok value), w1, new1, extra. repeat split; auto.
  - exists (Raise e), w1, new1, extra. repeat split; auto.
Qed.

(** The call from its start: the store only grows, and the requests are
    those of a call. *)
Lemma paginated_query_api_frame self url params max_pages w d :
  store w !! params = Some d ->
  exists o w' new extra,
    paginated_query_api self url params max_pages w = Some (o, w') /\
    store w' = store w ++ extra /\
    sent w' = sent w ++ new /\
    requests_of_call url params d (length (store w)) new.
Proof.
  intros Hd.
  unfold paginated_query_api, paginated_query_api_iterator.
  rewrite reduce_add_step. cbn [next]. unfold bind at 1, deref.
  rewrite Hd.
  destruct (bool_decide ("page-token" ∈ dom d)).
  { exists (Raise AssertionError), w, [], []. rewrite !app_nil_r.
    repeat split; auto. }
  destruct (loop_to_yield_effect self url params max_pages 0%Z JNull w d Hd)
    as (o & w1 & extra & E & _ & Hst & Hf & Hs & Hle & Hy).
  rewrite E. simpl in Hs, Hy.
  assert (Hdone : forall o' : outcome (list json), exists w' new extra',
    Some (o', w1) = Some (o', w') /\
    store w' = store w ++ extra' /\
    sent w' = sent w ++ new /\
    requests_of_call url params d (length (store w)) new).
  { intros o'. destruct Hs as [Hs|Hs].
    - exists w1, [], extra. rewrite app_nil_r. repeat split; auto.
    - exists w1, [Request url (Some (params, d)) false], extra.
      repeat split; auto. }
  destruct o as [[v g|]|e].
  - destruct (Hy v g eq_refl) as (Hlt & Hs1 & Hd1 & j1 & ->).
    destruct (operator_add [] v) as [value'|e].
    + destruct (reduce_add_frame self d (length (store w))
                  (length (wire w)) url params max_pages 0%Z j1 value' w1 d)
        as (o2 & w2 & new2 & extra2 & E2 & Hst2 & Hf2 & Hs2 & Hfresh2).
      * exact Hlt.
      * exact Hd1.
      * intros tok. reflexivity.
      * rewrite Hst, length_app. lia.
      * exists o2, w2, (Request url (Some (params, d)) false :: new2),
          (extra ++ extra2).
        rewrite E2, Hst2, Hst, Hs2, Hs1, <- !app_assoc.
        repeat split; auto.
    + destruct (Hdone (Raise e)) as (w' & new & extra' & H). eauto 10.
  - destruct (Hdone (Ok [])) as (w' & new & extra' & H). eauto 10.
  - destruct (Hdone (Raise e)) as (w' & new & extra' & H). eauto 10.
Qed.

(** The call always comes to an end: the bound on the steps is never
    reached. *)
Lemma paginated_query_api_total self url params max_pages w d :
  store w !! params = Some d ->
  exists o w', paginated_query_api self url params max_pages w = Some (o, w').
Proof.
  intros Hd.
  destruct (paginated_query_api_frame self url params max_pages w d Hd)
    as (o & w' & _ & _ & E & _).
  eauto.
Qed.

Lemma loop_to_yield_over_limit self url params max_pages c tok w :
  within_limit max_pages c = false ->
  loop_to_yield self url params max_pages c tok w = (Ok StopIteration, w).
Proof. intros H. unfold loop_to_yield. rewrite H. reflexivity. Qed.

Lemma next_suspended_token self url params max_pages c j tok w :
  subscript j "next_page_token" = Ok tok ->
  tok <> JNull ->
  next self (GenSuspended url params max_pages c j) w
    = loop_to_yield self url params max_pages (c + 1)%Z tok w.
Proof.
  intros Ht Hn. cbn [next]. unfold bind, getitem, lift. rewrite Ht.
  destruct tok; congruence || reflexivity.
Qed.

Lemma page_params_same d dp tok :
  same_off_token dp d -> tok <> JNull ->
  page_params dp tok = <["page-token" := tok]> d.
Proof.
  intros Hs Hn. rewrite <- Hs. destruct tok; congruence || reflexivity.
Qed.

(** One turn of the loop within the limit, whatever its outcome: the
    copy (if a token is merged in), the request and the response
    taken. *)
Lemma loop_to_yield_exact self url params max_pages c tok w d :
  store w !! params = Some d ->
  within_limit max_pages c = true ->
  exists o w',
    loop_to_yield self url params max_pages c tok w = (o, w') /\
    store w' = store w ++ match tok with
                          | JNull => []
                          | _ => [<["page-token" := tok]> d]
                          end /\
    sent w' = sent w ++ [Request url
                (Some (page_params_addr w params tok, page_params d tok))
                false] /\
    wire w' = tail (wire w) /\
    (forall v g, o = Ok (Yield v g) ->
       exists r j,
         head (wire w) = Some r /\ decoded r = Some j /\
         g = GenSuspended url (page_params_addr w params tok) max_pages c j).
Proof.
  intros Hd Hlim. unfold loop_to_yield. rewrite Hlim.
  assert (Hq : forall w1 p1 d1,
    store w1 !! p1 = Some d1 ->
    exists o w',
      (response <- query_api url p1 (debug_requests self) ;;
       items <- getitem response "items" ;;
       ret (Yield items (GenSuspended url p1 max_pages c response))) w1
      = (o, w') /\
      store w' = store w1 /\
      sent w' = sent w1 ++ [Request url (Some (p1, d1)) false] /\
      wire w' = tail (wire w1) /\
      (forall v g, o = Ok (Yield v g) ->
         exists r j, head (wire w1) = Some r /\ decoded r = Some j /\
                     g = GenSuspended url p1 max_pages c j)).
  { intros w1 p1 d1 Hd1.
    destruct (query_api_effect url p1 (debug_requests self) w1 d1 Hd1)
      as (o & w' & E & Hst & _ & Hsent & Hwire & _ & _ & Hok).
    unfold bind at 1. rewrite E. destruct o as [j|e].
    - destruct (Hok j eq_refl) as (r & Hr & Hj & _).
      unfold bind, getitem, lift, ret.
      destruct (subscript j "items") as [v|e].
      + do 2 eexists. repeat split; eauto.
        intros v0 g0 [= <- <-]. eauto.
      + do 2 eexists. repeat split; eauto. discriminate.
    - do 2 eexists. repeat split; eauto. discriminate. }
  destruct (json_null_dec tok) as [->|Hn].
  - unfold bind at 1, ret at 1. simpl.
    destruct (Hq w params d Hd) as (o & w' & E & Hst & Hs & Hw & Hy).
    exists o, w'. rewrite E, Hst, app_nil_r. auto.
  - set (w1 := World (store w ++ [<["page-token" := tok]> d]) (wire w) (sent w)
                     (stdout w) (files w)).
    assert (E1 : match tok with
                 | JNull => ret params
                 | _ => with_page_token params tok
                 end w = (Ok (length (store w)), w1)).
    { destruct tok; try congruence;
        unfold with_page_token, bind, deref, alloc; rewrite Hd; reflexivity. }
    assert (Hp : page_params_addr w params tok = length (store w))
      by (destruct tok; congruence || reflexivity).
    assert (Hpd : page_params d tok = <["page-token" := tok]> d)
      by (destruct tok; congruence || reflexivity).
    assert (Hc : match tok with
                 | JNull => []
                 | _ => [<["page-token" := tok]> d]
                 end = [<["page-token" := tok]> d])
      by (destruct tok; congruence || reflexivity).
    rewrite Hp, Hpd, Hc.
    unfold bind at 1. rewrite E1.
    assert (Hd1 : store w1 !! length (store w) = Some (<["page-token" := tok]> d))
      by (simpl; apply list_lookup_middle; reflexivity).
    destruct (Hq w1 (length (store w)) (<["page-token" := tok]> d) Hd1)
      as (o & w' & E & Hst & Hs & Hw & Hy).
    exists o, w'. rewrite E, Hst. auto.
Qed.

(** Resuming after a page, whatever happens: the requests made are the
    follow-ups of that page, and the dictionaries created are those the
    requests were made with. *)
Lemma reduce_add_trace self (d : gmap string json) :
  forall fuel url params max_pages c j value w dp,
    length (wire w) < fuel ->
    store w !! params = Some dp ->
    same_off_token dp d ->
    exists o w' more copies,
      reduce_add fuel self (GenSuspended url params max_pages c j) value w
        = Some (o, w') /\
      store w' = store w ++ copies /\
      sent w' = sent w ++ more /\
      map req_entries more = map Some copies /\
      follow_ups url d (length (store w)) (token_of j) (wire w) more.
Proof.
  induction fuel as [|fuel IH]; intros url params max_pages c j value w dp
    Hfuel Hd Hsame; [lia|].
  rewrite reduce_add_step.
  assert (Hnone : forall o : outcome (list json), exists o' w' more copies,
            Some (o, w) = Some (o', w') /\
            store w' = store w ++ copies /\
            sent w' = sent w ++ more /\
            map req_entries more = map Some copies /\
            follow_ups url d (length (store w)) (token_of j) (wire w) more).
  { intros o. exists o, w, [], []. rewrite !app_nil_r.
    repeat split; auto. }
  unfold token_of.
  destruct (subscript j "next_page_token") as [tok|e] eqn:Ht.
  2:{ cbn [next]. unfold bind, getitem, lift. rewrite Ht.
      unfold token_of in Hnone. rewrite Ht in Hnone. apply Hnone. }
  unfold token_of in Hnone. rewrite Ht in Hnone.
  destruct (json_null_dec tok) as [->|Hn].
  { cbn [next]. unfold bind, getitem, lift. rewrite Ht. apply Hnone. }
  rewrite (next_suspended_token _ _ _ _ _ _ _ _ Ht Hn).
  destruct (within_limit max_pages (c + 1)) eqn:Hlim.
  2:{ rewrite loop_to_yield_over_limit by exact Hlim. apply Hnone. }
  destruct (loop_to_yield_exact self url params max_pages (c + 1)%Z tok w dp
              Hd Hlim) as (o & w1 & E & Hst & Hs & Hw & Hy).
  rewrite E.
  assert (Hp : page_params_addr w params tok = length (store w))
    by (destruct tok; congruence || reflexivity).
  assert (Hc : match tok with
               | JNull => []
               | _ => [<["page-token" := tok]> dp]
               end = [<["page-token" := tok]> d])
    by (rewrite <- Hsame; destruct tok; congruence || reflexivity).
  rewrite Hp, (page_params_same d dp tok Hsame Hn) in Hs.
  rewrite Hp in Hy. rewrite Hc in Hst.
  set (req := Request url (Some (length (store w), <["page-token" := tok]> d))
                      false) in *.
  assert (Hhead : exists tok', Some tok = Some tok' /\ tok' <> JNull /\
            req = Request url (Some (length (store w),
                                     <["page-token" := tok']> d)) false)
    by (exists tok; auto).
  assert (Hdone : forall o' : outcome (list json), exists o'' w' more copies,
            Some (o', w1) = Some (o'', w') /\
            store w' = store w ++ copies /\
            sent w' = sent w ++ more /\
            map req_entries more = map Some copies /\
            follow_ups url d (length (store w)) (Some tok) (wire w) more).
  { intros o'. exists o', w1, [req], [<["page-token" := tok]> d].
    repeat split; auto. destruct (wire w); reflexivity || exact I. }
  destruct o as [[v g|]|e]; try apply Hdone.
  destruct (Hy v g eq_refl) as (r & j1 & Hr & Hj1 & ->).
  destruct (operator_add value v) as [value'|e]; try apply Hdone.
  destruct (wire w) as [|r' ws] eqn:Hwire; [discriminate|].
  injection Hr as ->. simpl in Hw.
  destruct (IH url (length (store w)) max_pages (c + 1)%Z j1 value' w1
              (<["page-token" := tok]> d))
    as (o2 & w2 & more & copies & E2 & Hst2 & Hs2 & He2 & Hf2).
  - rewrite Hw. simpl in Hfuel. lia.
  - rewrite Hst. apply list_lookup_middle. reflexivity.
  - intros tok'. apply insert_insert_eq.
  - exists o2, w2, (req :: more), (<["page-token" := tok]> d :: copies).
    rewrite E2, Hst2, Hst, Hs2, Hs, <- !app_assoc.
    split; [reflexivity|]. split; [reflexivity|]. split; [reflexivity|].
    split; [cbn [map]; rewrite He2; reflexivity|].
    split; [exact Hhead|].
    unfold page_token_of. rewrite Hj1.
    rewrite Hst, length_app, Hw in Hf2. simpl in Hf2.
    rewrite Nat.add_1_r in Hf2. exact Hf2.
Qed.

(** The call from its start, whatever happens: the first request is made
    with the caller's dictionary, the others are the follow-ups of the
    first response. *)
Lemma paginated_query_api_trace self url params max_pages w d :
  store w !! params = Some d ->
  exists o w' new copies,
    paginated_query_api self url params max_pages w = Some (o, w') /\
    store w' = store w ++ copies /\
    sent w' = sent w ++ new /\
    match new with
    | [] => copies = []
    | first :: more =>
        first = Request url (Some (params, d)) false /\
        map req_entries more = map Some copies /\
        match wire w with
        | [] => more = []
        | r :: ws =>
            follow_ups url d (length (store w)) (page_token_of r) ws more
        end
    end.
Proof.
  intros Hd.
  unfold paginated_query_api, paginated_query_api_iterator.
  rewrite reduce_add_step. cbn [next]. unfold bind at 1, deref. rewrite Hd.
  assert (Hnone : forall o : outcome (list json), exists o' w' new copies,
            Some (o, w) = Some (o', w') /\
            store w' = store w ++ copies /\
            sent w' = sent w ++ new /\
            match new with
            | [] => copies = []
            | first :: more =>
                first = Request url (Some (params, d)) false /\
                map req_entries more = map Some copies /\
                match wire w with
                | [] => more = []
                | r :: ws =>
                    follow_ups url d (length (store w)) (page_token_of r) ws
                      more
                end
            end).
  { intros o. exists o, w, [], []. rewrite !app_nil_r. repeat split; auto. }
  destruct (bool_decide ("page-token" ∈ dom d)); [apply Hnone|].
  destruct (within_limit max_pages 0) eqn:Hlim.
  2:{ rewrite loop_to_yield_over_limit by exact Hlim. apply Hnone. }
  destruct (loop_to_yield_exact self url params max_pages 0%Z JNull w d
              Hd Hlim) as (o & w1 & E & Hst & Hs & Hw & Hy).
  rewrite E. simpl in Hs, Hy, Hst. rewrite app_nil_r in Hst.
  assert (Hdone : forall o' : outcome (list json), exists o'' w' new copies,
            Some (o', w1) = Some (o'', w') /\
            store w' = store w ++ copies /\
            sent w' = sent w ++ new /\
            match new with
            | [] => copies = []
            | first :: more =>
                first = Request url (Some (params, d)) false /\
                map req_entries more = map Some copies /\
                match wire w with
                | [] => more = []
                | r :: ws =>
                    follow_ups url d (length (store w)) (page_token_of r) ws
                      more
                end
            end).
  { intros o'. exists o', w1, [Request url (Some (params, d)) false], [].
    rewrite app_nil_r. repeat split; auto.
    destruct (wire w); reflexivity || exact I. }
  destruct o as [[v g|]|e]; try apply Hdone.
  destruct (Hy v g eq_refl) as (r & j1 & Hr & Hj1 & ->).
  destruct (operator_add [] v) as [value'|e]; try apply Hdone.
  destruct (wire w) as [|r' ws] eqn:Hwire; [discriminate|].
  injection Hr as ->. simpl in Hw.
  destruct (reduce_add_trace self d (S (length ws)) url params max_pages 0%Z
              j1 value' w1 d)
    as (o2 & w2 & more & copies & E2 & Hst2 & Hs2 & He2 & Hf2).
  - rewrite Hw. lia.
  - rewrite Hst. exact Hd.
  - intros tok. reflexivity.
  - exists o2, w2, (Request url (Some (params, d)) false :: more), copies.
    simpl length. rewrite E2, Hst2, Hst, Hs2, Hs, <- !app_assoc.
    repeat split; auto.
    unfold page_token_of. rewrite Hj1. rewrite Hst, Hw in Hf2. exact Hf2.
Qed.

Lemma follow_ups_lookup url d :
  forall more n tok0 ws,
    follow_ups url d n tok0 ws more ->
    forall i req, more !! i = Some req ->
      exists tok,
        (tok0 :: map page_token_of ws) !! i = Some (Some tok) /\
        tok <> JNull /\
        req = Request url (Some (n + i, <["page-token" := tok]> d)) false.
Proof.
  induction more as [|req0 more IH]; intros n tok0 ws Hf i req Hi;
    [discriminate|].
  destruct Hf as [(tok & -> & Hn & ->) Hrest].
  destruct i as [|i].
  - injection Hi as <-. exists tok. rewrite Nat.add_0_r. auto.
  - simpl in Hi. destruct ws as [|r ws]; [subst more; discriminate|].
    destruct (IH (S n) (page_token_of r) ws Hrest i req Hi)
      as (tok' & Hl & Hn' & ->).
    exists tok'. repeat split; auto.
    replace (n + S i) with (S n + i) by lia. reflexivity.
Qed.

(** C4: whatever the responses and whatever the outcome,
    paginated_query_api leaves every dictionary that existed before the
    call as it was, the caller's among them.  The first request is made
    with the caller's dictionary itself; the request after the i-th
    response goes to the same url with a dictionary created during the
    call, which holds the caller's entries with the non-null
    next_page_token of that response merged in under 'page-token'; its
    address lies beyond the dictionaries that existed before. *)
Theorem pagination_keeps_caller_params self url params max_pages w d :
  store w !! params = Some d ->
  exists o w' new,
    paginated_query_api self url params max_pages w = Some (o, w') /\
    store w' !! params = Some d /\
    (forall a, a < length (store w) -> store w' !! a = store w !! a) /\
    sent w' = sent w ++ new /\
    (forall req, new !! 0 = Some req ->
       req = Request url (Some (params, d)) false) /\
    (forall i req, new !! S i = Some req ->
       exists resp tok,
         wire w !! i = Some resp /\
         page_token_of resp = Some tok /\
         tok <> JNull /\
         req = Request url
                 (Some (length (store w) + i, <["page-token" := tok]> d))
                 false /\
         store w' !! (length (store w) + i)
           = Some (<["page-token" := tok]> d)).
Proof.
  intros Hd.
  destruct (paginated_query_api_trace self url params max_pages w d Hd)
    as (o & w' & new & copies & E & Hst & Hs & Hnew).
  exists o, w', new. split; [exact E|].
  split.
  { rewrite Hst. rewrite lookup_app_l; [exact Hd|].
    apply lookup_lt_Some in Hd. exact Hd. }
  split.
  { intros a Ha. rewrite Hst. apply lookup_app_l. exact Ha. }
  split; [exact Hs|].
  destruct new as [|first more]; [split; intros; discriminate|].
  destruct Hnew as (-> & He & Hf).
  split; [intros req [= <-]; reflexivity|].
  intros i req Hi. simpl in Hi.
  destruct (wire w) as [|r ws] eqn:Hwire; [subst more; discriminate|].
  destruct (follow_ups_lookup url d more _ _ _ Hf i req Hi)
    as (tok & Hl & Hn & ->).
  change (page_token_of r :: map page_token_of ws)
    with (map page_token_of (r :: ws)) in Hl.
  rewrite list_lookup_fmap in Hl.
  destruct ((r :: ws) !! i) as [resp|] eqn:Hresp; [|discriminate].
  injection Hl as Hl.
  exists resp, tok. repeat split; auto.
  rewrite Hst, lookup_app_r by lia.
  replace (length (store w) + i - length (store w)) with i by lia.
  apply (f_equal (fun l => l !! i)) in He.
  rewrite !list_lookup_fmap, Hi in He. simpl in He.
  destruct (copies !! i) as [c0|]; [|discriminate].
  injection He as <-. reflexivity.
Qed.

Lemma pagination_keeps_caller_params_witness :
  exists o w' new,
    paginated_query_api sample_client "u" 0 (Some 10%Z) (fresh_world three_pages)
      = Some (o, w') /\
    store w' !! 0 = Some ∅ /\
    (forall a, a < 1 -> store w' !! a = store (fresh_world three_pages) !! a) /\
    sent w' = new /\
    (forall req, new !! 0 = Some req ->
       req = Request "u" (Some (0, ∅)) false) /\
    (forall i req, new !! S i = Some req ->
       exists resp tok,
         three_pages !! i = Some resp /\
         page_token_of resp = Some tok /\
         tok <> JNull /\
         req = Request "u" (Some (1 + i, <["page-token" := tok]> ∅)) false /\
         store w' !! (1 + i) = Some (<["page-token" := tok]> ∅)).
Proof.
  apply (pagination_keeps_caller_params sample_client "u" 0 (Some 10%Z)
           (fresh_world three_pages) ∅).
  reflexivity.
Defined.

(** ** latest_item *)

Lemma string_compare_trans (a : string) :
  forall b c,
    String.compare a b <> Gt -> String.compare b c <> Gt ->
    String.compare a c <> Gt.
Proof.
  induction a as [|x a IH]; intros [|y b] [|z c]; simpl; try congruence.
  unfold Ascii.compare.
  destruct (N.compare_spec (Ascii.N_of_ascii x) (Ascii.N_of_ascii y));
    destruct (N.compare_spec (Ascii.N_of_ascii y) (Ascii.N_of_ascii z));
    destruct (N.compare_spec (Ascii.N_of_ascii x) (Ascii.N_of_ascii z));
    try congruence; try lia.
  apply IH.
Qed.

Lemma string_ltb_false_trans a b c :
  String.ltb b a = false -> String.ltb c b = false -> String.ltb c a = false.
Proof.
  unfold String.ltb. intros Hba Hcb.
  pose proof (string_compare_trans a b c) as Ht.
  rewrite (String.compare_antisym a b), (String.compare_antisym b c),
    (String.compare_antisym a c) in Ht.
  destruct (String.compare b a), (String.compare c b), (String.compare c a);
    simpl in *; try congruence; exfalso; apply Ht; congruence.
Qed.

Lemma string_ltb_asym a b : String.ltb a b = true -> String.ltb b a = false.
Proof.
  unfold String.ltb. rewrite (String.compare_antisym b a).
  destruct (String.compare a b); simpl; congruence.
Qed.

Lemma py_lt_asym a b : py_lt a b = Ok true -> py_lt b a = Ok false.
Proof.
  destruct a, b; simpl; try discriminate; intros [= H]; f_equal;
    try (apply string_ltb_asym; exact H);
    repeat match goal with b : bool |- _ => destruct b end; lia.
Qed.

Lemma py_lt_false_trans a b c :
  py_lt b a = Ok false -> py_lt c b = Ok false -> py_lt c a = Ok false.
Proof.
  destruct a, b; simpl; try discriminate; destruct c; simpl;
    try discriminate; intros [= H1] [= H2]; f_equal;
    try (eapply string_ltb_false_trans; eassumption);
    repeat match goal with b : bool |- _ => destruct b end; lia.
Qed.

Lemma insert_by_key_sorted x :
  forall s,
    Forall (fun y => exists r, py_lt (fst y) (fst x) = Ok r) s ->
    StronglySorted key_le s ->
    exists s',
      insert_by_key x s = Ok s' /\
      Permutation (x :: s) s' /\
      StronglySorted key_le s'.
Proof.
  induction s as [|y s IH]; intros Hc Hs; simpl.
  - exists [x]. repeat split; auto. repeat constructor.
  - apply Forall_cons_1 in Hc as [[r Hr] Hc].
    apply StronglySorted_inv in Hs as [Hs Hy].
    rewrite Hr. destruct r.
    + destruct (IH Hc Hs) as (s' & E & Hp & Hs').
      rewrite E. exists (y :: s'). repeat split.
      * rewrite perm_swap. constructor. exact Hp.
      * constructor; [exact Hs'|].
        eapply Permutation_Forall; [exact Hp|].
        constructor; [|exact Hy].
        unfold key_le. apply py_lt_asym. exact Hr.
    + exists (x :: y :: s). repeat split; auto.
      constructor; [constructor; assumption|].
      constructor; [exact Hr|].
      eapply Forall_impl; [exact Hy|].
      intros z Hz. unfold key_le in *.
      eapply py_lt_false_trans; eassumption.
Qed.

Lemma sort_by_key_sorted :
  forall l,
    (forall x y, In x l -> In y l -> exists r, py_lt (fst x) (fst y) = Ok r) ->
    exists s,
      sort_by_key l = Ok s /\
      Permutation l s /\
      StronglySorted key_le s.
Proof.
  induction l as [|x l IH]; intros Hc; simpl.
  - exists []. repeat split; auto. constructor.
  - destruct IH as (s & E & Hp & Hs).
    { intros a b Ha Hb. apply Hc; right; assumption. }
    rewrite E.
    destruct (insert_by_key_sorted x s) as (s' & E' & Hp' & Hs'); auto.
    + apply List.Forall_forall. intros y Hy. apply Hc; [right|left; reflexivity].
      eapply Permutation_in; [symmetry; exact Hp|exact Hy].
    + exists s'. repeat split; auto.
      rewrite <- Hp'. constructor. exact Hp.
Qed.

Lemma decorate_sortable :
  forall items,
    (forall a, In a items -> exists ka, subscript a "created_at" = Ok ka) ->
    exists l,
      decorate items = Ok l /\
      map snd l = items /\
      Forall (fun p => subscript (snd p) "created_at" = Ok (fst p)) l.
Proof.
  induction items as [|item items IH]; intros Hk; simpl.
  - exists []. repeat split; auto.
  - destruct (Hk item) as [k Hi]; [left; reflexivity|].
    destruct IH as (l & E & Hm & Hf).
    { intros a Ha. apply Hk. right. exact Ha. }
    rewrite Hi, E. exists ((k, item) :: l). simpl. rewrite Hm.
    repeat split; auto.
Qed.

(** [sorted] returns the items rearranged, in ascending order of key. *)
Lemma sorted_sortable items :
  sortable items ->
  exists s,
    sorted items = Ok (map snd s) /\
    Permutation items (map snd s) /\
    StronglySorted key_le s /\
    Forall (fun p => subscript (snd p) "created_at" = Ok (fst p)) s.
Proof.
  intros Hs. unfold sorted.
  destruct (decorate_sortable items) as (l & E & Hm & Hf).
  { intros a Ha. destruct (Hs a a Ha Ha) as (ka & _ & _ & Hka & _). eauto. }
  rewrite E.
  destruct (sort_by_key_sorted l) as (s & E' & Hp & Hss).
  { intros x y Hx Hy.
    rewrite List.Forall_forall in Hf.
    pose proof (Hf x Hx) as Hfx. pose proof (Hf y Hy) as Hfy.
    destruct (Hs (snd x) (snd y)) as (ka & kb & r & Ha & Hb & Hr).
    - rewrite <- Hm. apply in_map. exact Hx.
    - rewrite <- Hm. apply in_map. exact Hy.
    - exists r. congruence. }
  rewrite E'. exists s. repeat split; auto.
  - rewrite <- Hm. apply Permutation_map. exact Hp.
  - eapply Permutation_Forall; [exact Hp|exact Hf].
Qed.

(** C6: for items with sortable created_at values latest_item returns
    the first element of the list sorted ascending by created_at, an item
    such that no item has a created_at below its own; for no items it
    returns None. *)
Theorem latest_item_earliest items :
  sortable items ->
  match items with
  | [] => latest_item items = Ok None
  | _ :: _ =>
      exists x k rest,
        sorted items = Ok (x :: rest) /\
        latest_item items = Ok (Some x) /\
        In x items /\
        subscript x "created_at" = Ok k /\
        forall y ky, In y items -> subscript y "created_at" = Ok ky ->
                     py_lt ky k = Ok false
  end.
Proof.
  intros Hsortable.
  destruct items as [|item items]; [reflexivity|].
  destruct (sorted_sortable _ Hsortable) as (s & E & Hp & Hss & Hf).
  destruct s as [|[k x] s].
  { apply Permutation_sym, Permutation_nil in Hp. discriminate. }
  simpl in E, Hp.
  apply StronglySorted_inv in Hss as [_ Hmin].
  apply Forall_cons_1 in Hf as [Hx Hf]. simpl in Hx.
  exists x, k, (map snd s).
  split; [exact E|].
  split; [unfold latest_item; rewrite E; reflexivity|].
  split; [eapply Permutation_in; [symmetry; exact Hp|left; reflexivity]|].
  split; [exact Hx|].
  - intros y ky Hy Hky.
    eapply Permutation_in in Hy; [|exact Hp].
    destruct Hy as [<-|Hy].
    + assert (ky = k) as -> by congruence.
      destruct (Hsortable x x) as (ka & kb & r & Ha & Hb & Hr).
      * eapply Permutation_in; [symmetry; exact Hp|left; reflexivity].
      * eapply Permutation_in; [symmetry; exact Hp|left; reflexivity].
      * assert (ka = k) as -> by congruence.
        assert (kb = k) as -> by congruence.
        destruct r; [|exact Hr].
        pose proof (py_lt_asym _ _ Hr). congruence.
    + apply in_map_iff in Hy as ([k' y'] & <- & Hin). simpl in Hky.
      rewrite List.Forall_forall in Hmin, Hf.
      pose proof (Hf _ Hin) as Hk'. simpl in Hk'.
      assert (ky = k') as -> by congruence.
      exact (Hmin _ Hin).
Qed.

Lemma latest_item_earliest_witness :
  exists x k rest,
    sorted two_items = Ok (x :: rest) /\
    latest_item two_items = Ok (Some x) /\
    In x two_items /\
    subscript x "created_at" = Ok k /\
    forall y ky, In y two_items -> subscript y "created_at" = Ok ky ->
                 py_lt ky k = Ok false.
Proof.
  apply (latest_item_earliest two_items).
  intros a b [<-|[<-|[]]] [<-|[<-|[]]]; do 3 eexists; repeat split.
Defined.

(** * Further properties *)

(** ** query_api *)

(** X1: the debug flag changes the console and nothing else: the outcome,
    the request made, the response taken and the store and files are the
    same with it on and off, and with it off nothing is printed. *)
Theorem query_api_debug_only_prints url params w :
  fst (query_api url params true w) = fst (query_api url params false w) /\
  sent (snd (query_api url params true w))
    = sent (snd (query_api url params false w)) /\
  wire (snd (query_api url params true w))
    = wire (snd (query_api url params false w)) /\
  store (snd (query_api url params true w))
    = store (snd (query_api url params false w)) /\
  files (snd (query_api url params true w))
    = files (snd (query_api url params false w)) /\
  stdout (snd (query_api url params false w)) = stdout w.
Proof.
  run. simpl.
  destruct (store w !! params) as [d|]; simpl; [|repeat split].
  destruct (wire w) as [|r rest]; simpl; [repeat split|].
  destruct (is_error_status r); simpl; [repeat split|].
  destruct (decoded r) as [j|]; simpl; [|repeat split].
  destruct j; repeat split.
Qed.

(** X2: whatever its outcome, query_api makes exactly one GET, with the
    url and the entries of the dictionary it was given, takes at most the
    first response off the wire, and leaves the dictionaries and the
    files as they are. *)
Theorem query_api_one_request url params debug w d :
  store w !! params = Some d ->
  sent (snd (query_api url params debug w))
    = sent w ++ [Request url (Some (params, d)) false] /\
  wire (snd (query_api url params debug w)) = tail (wire w) /\
  store (snd (query_api url params debug w)) = store w /\
  files (snd (query_api url params debug w)) = files w.
Proof.
  intros Hd.
  destruct (query_api_effect url params debug w d Hd)
    as (o & w' & E & Hst & Hf & Hs & Hw & _).
  rewrite E. simpl. auto.
Qed.

Lemma query_api_one_request_witness :
  sent (snd (query_api "u" 0 true (fresh_world three_pages)))
    = [Request "u" (Some (0, ∅)) false] /\
  wire (snd (query_api "u" 0 true (fresh_world three_pages)))
    = tail three_pages /\
  store (snd (query_api "u" 0 true (fresh_world three_pages))) = [∅] /\
  files (snd (query_api "u" 0 true (fresh_world three_pages))) = ∅.
Proof.
  apply (query_api_one_request "u" 0 true (fresh_world three_pages) ∅).
  reflexivity.
Defined.

(** X3: with debug on and a response that is no error and decodes to j,
    query_api returns j and prints exactly four lines: the request line,
    the opening marker, the body (pretty-printed with indent 4, or the
    raw bytes when j is null) and the closing marker. *)
Theorem query_api_debug_console url params w d r rest j :
  store w !! params = Some d ->
  wire w = r :: rest ->
  is_error_status r = false ->
  decoded r = Some j ->
  fst (query_api url params true w) = Ok j /\
  stdout (snd (query_api url params true w)) =
    stdout w ++ [Line ("REQUEST: " ++ url)%string;
                 Line "========== RESPONSE ==========";
                 match j with
                 | JNull => LineBytes (content r)
                 | _ => LineJson 4 j
                 end;
                 Line "=============================="].
Proof.
  intros Hd Hw Hs Hj.
  destruct (query_api_ok url params true w d r rest j Hd Hw Hs Hj)
    as (w' & E & _).
  split; [rewrite E; reflexivity|].
  destruct (json_null_dec j) as [->|Hn].
  - apply (query_api_debug_null_body url params w d r rest); auto.
  - rewrite (query_api_debug_json_body url params w d r rest j); auto.
    destruct j; congruence || reflexivity.
Qed.

Lemma query_api_debug_console_witness :
  fst (query_api "u" 0 true (fresh_world [sample_page [] JNull]))
    = Ok (JObj [("items", JArr []); ("next_page_token", JNull)]) /\
  stdout (snd (query_api "u" 0 true (fresh_world [sample_page [] JNull]))) =
    [Line "REQUEST: u";
     Line "========== RESPONSE ==========";
     LineJson 4 (JObj [("items", JArr []); ("next_page_token", JNull)]);
     Line "=============================="].
Proof.
  apply (query_api_debug_console "u" 0 (fresh_world [sample_page [] JNull]) ∅
           (sample_page [] JNull) []); reflexivity.
Defined.

(** X4: when no response arrives query_api fails with ConnectionError,
    and when the response is no error but its body is not JSON it fails
    with JSONDecodeError; with debug on only the request line has been
    printed by then. *)
Theorem query_api_transport_and_decode_failure url params debug w d :
  store w !! params = Some d ->
  (wire w = [] \/
   exists r rest, wire w = r :: rest /\ is_error_status r = false /\
                  decoded r = None) ->
  fst (query_api url params debug w)
    = Raise (match wire w with
             | [] => ConnectionError
             | _ => JSONDecodeError
             end) /\
  stdout (snd (query_api url params debug w)) =
    stdout w ++ (if debug then [Line ("REQUEST: " ++ url)%string] else []).
Proof.
  intros Hd [Hw | (r & rest & Hw & Hs & Hj)].
  - destruct debug; run; simpl; rewrite Hd; simpl; rewrite Hw; simpl;
      rewrite ?app_nil_r; split; reflexivity.
  - destruct debug; run; simpl; rewrite Hd; simpl; rewrite Hw; simpl;
      rewrite Hs; simpl; rewrite Hj; simpl; rewrite ?app_nil_r;
      split; reflexivity.
Qed.

Lemma query_api_transport_and_decode_failure_witness :
  fst (query_api "u" 0 true (fresh_world [])) = Raise ConnectionError /\
  stdout (snd (query_api "u" 0 true (fresh_world []))) = [Line "REQUEST: u"].
Proof.
  apply (query_api_transport_and_decode_failure "u" 0 true (fresh_world []) ∅).
  - reflexivity.
  - left. reflexivity.
Defined.

(** ** download_file *)

(** X5: when overwriting is allowed or the target does not exist, and a
    response arrives, download_file makes one streamed GET without
    parameters, whatever the status of the response, and then opens the
    target: when that succeeds the body is written to the target and all
    other files are left as they are; when it fails (a directory, a
    missing parent, no permission) that error is raised and no file is
    changed.  The console and the dictionaries are left as they are. *)
Theorem download_file_writes_body url target_path overwrite w r rest :
  overwrite = true \/ files w !! target_path = None ->
  wire w = r :: rest ->
  download_file url target_path overwrite w
    = match open_wb (files w) target_path with
      | Ok _ =>
          (Ok tt,
           World (store w) rest (sent w ++ [Request url None true]) (stdout w)
                 (<[target_path := File true (content r)]> (files w)))
      | Raise e =>
          (Raise e,
           World (store w) rest (sent w ++ [Request url None true]) (stdout w)
                 (files w))
      end.
Proof.
  intros Hpre Hw. run. simpl.
  destruct overwrite; simpl.
  - rewrite Hw. simpl. destruct (open_wb (files w) target_path); reflexivity.
  - destruct Hpre as [|Hnone]; [discriminate|].
    rewrite bool_decide_eq_false_2.
    + rewrite Hw. simpl.
      destruct (open_wb (files w) target_path); reflexivity.
    + rewrite Hnone. intros [x Hx]. discriminate.
Qed.

Lemma download_file_writes_body_witness :
  download_file "u" ["new.zip"] false download_world
    = (Ok tt,
       World [] [] [Request "u" None true] []
             (<[ ["new.zip"] := File true [x50; x4b]%byte ]>
                (files download_world))).
Proof.
  apply (download_file_writes_body "u" ["new.zip"] false download_world
           (Response 200 [x50; x4b]%byte None) []).
  - right. vm_compute. reflexivity.
  - reflexivity.
Defined.

(** X6: when the connection fails, download_file raises ConnectionError
    and no file is created or changed: the request comes before the file
    is opened. *)
Theorem download_file_connection_failure url target_path overwrite w :
  overwrite = true \/ files w !! target_path = None ->
  wire w = [] ->
  fst (download_file url target_path overwrite w) = Raise ConnectionError /\
  files (snd (download_file url target_path overwrite w)) = files w.
Proof.
  intros Hpre Hw. run. simpl.
  destruct overwrite; simpl.
  - rewrite Hw. split; reflexivity.
  - destruct Hpre as [|Hnone]; [discriminate|].
    rewrite bool_decide_eq_false_2.
    + rewrite Hw. split; reflexivity.
    + rewrite Hnone. intros [x Hx]. discriminate.
Qed.

Lemma download_file_connection_failure_witness :
  fst (download_file "u" ["new.zip"] false (fresh_world []))
    = Raise ConnectionError /\
  files (snd (download_file "u" ["new.zip"] false (fresh_world []))) = ∅.
Proof.
  apply (download_file_connection_failure "u" ["new.zip"] false
           (fresh_world [])).
  - right. reflexivity.
  - reflexivity.
Defined.

(** X7: after a download that returned normally, and so has written the
    target, downloading to the same target again without overwrite is
    refused with FileAlreadyExists, and no further request is made. *)
Theorem download_file_twice url url' target_path overwrite w w1 :
  download_file url target_path overwrite w = (Ok tt, w1) ->
  download_file url' target_path false w1
    = (Raise (FileAlreadyExists target_path), w1).
Proof.
  intros E.
  assert (Hex : is_Some (files w1 !! target_path)).
  { revert E. run. simpl.
    destruct (negb overwrite); simpl;
      [destruct (bool_decide (is_Some (files w !! target_path)));
         [discriminate|]|];
      (destruct (wire w) as [|r rest]; simpl; [discriminate|];
       destruct (open_wb (files w) target_path); [|discriminate];
       intros [= <-]; simpl; rewrite lookup_insert_eq; eauto). }
  run. simpl. rewrite bool_decide_eq_true_2 by exact Hex. reflexivity.
Qed.

Lemma download_file_twice_witness :
  download_file "v" ["new.zip"] false
      (snd (download_file "u" ["new.zip"] false download_world))
    = (Raise (FileAlreadyExists ["new.zip"]),
       snd (download_file "u" ["new.zip"] false download_world)).
Proof.
  apply (download_file_twice "u" "v" ["new.zip"] false download_world
           (snd (download_file "u" ["new.zip"] false download_world))).
  vm_compute. reflexivity.
Defined.

(** ** Pagination, page by page *)

Lemma same_off_token_insert d dp tok :
  same_off_token dp d -> same_off_token (<["page-token" := tok]> d) d.
Proof. intros _ tok'. apply insert_insert_eq. Qed.

Lemma last_cons_default {A} (l : list A) (x a : A) :
  List.last (x :: l) a = List.last l x.
Proof.
  revert x a. induction l as [|y l IH]; intros x a; [reflexivity|].
  change (List.last (x :: y :: l) a) with (List.last (y :: l) a).
  rewrite !IH. reflexivity.
Qed.

(** Resuming after a page, the pages of a prefix are fetched one after
    the other; what is left is the call resumed after the last of them. *)
Lemma reduce_add_prefix self url max_pages (d : gmap string json) :
  forall pages resps,
    Forall2 is_page resps pages ->
    forall fuel tok c params j value w dp rest,
      subscript j "next_page_token" = Ok tok ->
      chain_prefix max_pages tok (c + 1)%Z pages ->
      store w !! params = Some dp ->
      same_off_token dp d ->
      wire w = resps ++ rest ->
      exists w' params' dp' j' new,
        reduce_add (length pages + fuel) self
            (GenSuspended url params max_pages c j) value w
          = reduce_add fuel self
              (GenSuspended url params' max_pages
                 (c + Z.of_nat (length pages))%Z j')
              (value ++ concat (map fst pages)) w' /\
        subscript j' "next_page_token"
          = Ok (List.last (map snd pages) tok) /\
        store w' !! params' = Some dp' /\
        same_off_token dp' d /\
        wire w' = rest /\
        files w' = files w /\
        sent w' = sent w ++ new /\
        Forall (fun r => req_url r = url) new /\
        map req_entries new
          = token_entries d (take (length pages) (tok :: map snd pages)).
Proof.
  intros pages resps HF.
  induction HF as [|r pg resps pages Hpg HF IH];
    intros fuel tok c params j value w dp rest Htok Hch Hd Hsame Hw.
  - exists w, params, dp, j, []. simpl.
    rewrite Z.add_0_r, !app_nil_r. repeat split; auto.
  - destruct Hch as (Hn & Hlim & Hch).
    destruct (loop_to_yield_page self url params max_pages (c + 1)%Z tok w dp
                r (resps ++ rest) (fst pg) (Ok (snd pg)) Hlim Hd Hw Hpg)
      as (w1 & j1 & E & Ht1 & Hw1 & Hs1 & Hd1 & Hf1).
    rewrite (page_params_same d dp tok Hsame Hn) in Hs1, Hd1.
    destruct (IH fuel (snd pg) (c + 1)%Z (page_params_addr w params tok) j1
                (value ++ fst pg) w1 (<["page-token" := tok]> d) rest
                Ht1 Hch Hd1 (same_off_token_insert d dp tok Hsame) Hw1)
      as (w' & params' & dp' & j' & new & E2 & Ht2 & Hd2 & Hsame2 & Hw2 & Hf2
          & Hs2 & Hu2 & He2).
    exists w', params', dp', j',
      (Request url (Some (page_params_addr w params tok,
                          <["page-token" := tok]> d)) false :: new).
    cbn [length Nat.add]. rewrite reduce_add_step.
    rewrite (next_suspended_token _ _ _ _ _ _ _ _ Htok Hn), E.
    cbn [operator_add]. rewrite E2.
    repeat split; auto.
    + f_equal; [|cbn [map concat]; rewrite app_assoc; reflexivity].
      f_equal. lia.
    + rewrite Ht2. cbn [map]. rewrite last_cons_default. reflexivity.
    + congruence.
    + rewrite Hs2, Hs1, <- app_assoc. reflexivity.
    + cbn [map]. rewrite He2. reflexivity.
Qed.

(** The call from its start, through a prefix of pages. *)
Lemma pagination_prefix self url params max_pages w d r resps pg pages rest :
  store w !! params = Some d ->
  "page-token" ∉ dom d ->
  within_limit max_pages 0 = true ->
  Forall2 is_page (r :: resps) (pg :: pages) ->
  chain_prefix max_pages (snd pg) 1 pages ->
  wire w = r :: resps ++ rest ->
  exists w' params' dp' j' new,
    paginated_query_api self url params max_pages w
      = reduce_add (S (length rest)) self
          (GenSuspended url params' max_pages (Z.of_nat (length pages)) j')
          (concat (map fst (pg :: pages))) w' /\
    subscript j' "next_page_token" = Ok (List.last (map snd pages) (snd pg)) /\
    store w' !! params' = Some dp' /\
    same_off_token dp' d /\
    wire w' = rest /\
    files w' = files w /\
    sent w' = sent w ++ Request url (Some (params, d)) false :: new /\
    Forall (fun r => req_url r = url) new /\
    map req_entries new
      = token_entries d (take (length pages) (snd pg :: map snd pages)).
Proof.
  intros Hd Hk Hlim HF Hch Hw.
  apply Forall2_cons_1 in HF as [Hpg HF].
  pose proof (Forall2_length _ _ _ HF) as Hlen.
  unfold paginated_query_api, paginated_query_api_iterator.
  rewrite Hw. cbn [length]. rewrite reduce_add_step. cbn [next].
  unfold bind at 1, deref. rewrite Hd.
  rewrite bool_decide_eq_false_2 by exact Hk.
  destruct (loop_to_yield_page self url params max_pages 0%Z JNull w d
              r (resps ++ rest) (fst pg) (Ok (snd pg)) Hlim Hd Hw Hpg)
    as (w1 & j1 & E & Ht1 & Hw1 & Hs1 & Hd1 & Hf1).
  rewrite E. cbn [operator_add app]. simpl in Hs1, Hd1.
  destruct (reduce_add_prefix self url max_pages d pages resps HF
              (S (length rest)) (snd pg) 0%Z params j1 (fst pg) w1 d rest
              Ht1 Hch Hd1 (fun tok => eq_refl) Hw1)
    as (w' & params' & dp' & j' & new & E2 & Ht2 & Hd2 & Hsame2 & Hw2 & Hf2
        & Hs2 & Hu2 & He2).
  exists w', params', dp', j', new.
  replace (S (length (resps ++ rest))) with (length pages + S (length rest))
    by (rewrite length_app; lia).
  change (page_params_addr w params JNull) with params.
  rewrite E2. repeat split; auto.
  - congruence.
  - rewrite Hs2, Hs1, <- app_assoc. reflexivity.
Qed.

Lemma reduce_add_stops_on_null self fuel url params max_pages c j value w :
  subscript j "next_page_token" = Ok JNull ->
  reduce_add (S fuel) self (GenSuspended url params max_pages c j) value w
    = Some (Ok value, w).
Proof.
  intros Ht. rewrite reduce_add_step. cbn [next].
  unfold bind, getitem, lift. rewrite Ht. reflexivity.
Qed.

Lemma chain_prefix_intro max_pages :
  forall (ps : list (list json * json)) tok c,
    Forall (fun t => t <> JNull) (take (length ps) (tok :: map snd ps)) ->
    (forall m, max_pages = Some m -> (c + Z.of_nat (length ps) <= m)%Z) ->
    chain_prefix max_pages tok c ps.
Proof.
  induction ps as [|pg ps IH]; intros tok c Hnn Hm; [exact I|].
  cbn [length take map] in Hnn. apply Forall_cons_1 in Hnn as [Hn Hnn].
  cbn [chain_prefix]. repeat split; auto.
  - destruct max_pages as [m|]; [|reflexivity].
    apply Z.ltb_lt. specialize (Hm m eq_refl). cbn [length] in Hm. lia.
  - apply IH; auto.
    intros m Hmax. specialize (Hm m Hmax). cbn [length] in Hm. lia.
Qed.

(** X8: for a listing served in pages, every page but the last with a
    non-null token and the last with a null one, and max_pages None or
    at least the number of pages, paginated_query_api returns all items
    in order, and its requests all go to the url: the first with the
    caller's entries, each later one with these entries and the token of
    the page before under 'page-token'. *)
Theorem paginated_query_api_token_chain self url params max_pages w d
    (front : list (list json * json)) (last_items : list json)
    (resps rest : list response) :
  store w !! params = Some d ->
  "page-token" ∉ dom d ->
  Forall2 is_page resps (front ++ [(last_items, JNull)]) ->
  Forall (fun pg => snd pg <> JNull) front ->
  wire w = resps ++ rest ->
  (forall m, max_pages = Some m -> (Z.of_nat (length resps) <= m)%Z) ->
  exists w' new,
    paginated_query_api self url params max_pages w
      = Some (Ok (concat (map fst front) ++ last_items), w') /\
    wire w' = rest /\
    sent w' = sent w ++ new /\
    Forall (fun r => req_url r = url) new /\
    map req_entries new = Some d :: token_entries d (map snd front).
Proof.
  intros Hd Hk HF Hnn Hw Hm.
  pose proof (Forall2_length _ _ _ HF) as Hlen.
  rewrite length_app in Hlen. simpl in Hlen.
  destruct resps as [|r resps]; [simpl in Hlen; lia|].
  assert (Hres : concat (map fst (front ++ [(last_items, JNull)]))
                 = concat (map fst front) ++ last_items).
  { rewrite map_app, concat_app. simpl. rewrite app_nil_r. reflexivity. }
  assert (Htoks : forall pg pages,
            front ++ [(last_items, JNull)] = pg :: pages ->
            take (length pages) (snd pg :: map snd pages) = map snd front /\
            List.last (map snd pages) (snd pg) = JNull).
  { intros pg pages Hp. split.
    - change (snd pg :: map snd pages) with (map snd (pg :: pages)).
      rewrite <- Hp, map_app.
      assert (Hl : length pages = length (map snd front)).
      { apply (f_equal (@length _)) in Hp. rewrite length_app in Hp.
        simpl in Hp. rewrite length_map. lia. }
      rewrite Hl. apply take_app_length.
    - rewrite <- last_cons_default with (a := JNull).
      change (snd pg :: map snd pages) with (map snd (pg :: pages)).
      rewrite <- Hp, map_app. apply last_last. }
  destruct (front ++ [(last_items, JNull)]) as [|pg pages] eqn:Hp.
  { destruct front; discriminate. }
  destruct (Htoks pg pages eq_refl) as [Htake Hlast].
  destruct (pagination_prefix self url params max_pages w d r resps pg pages
              rest Hd Hk) as (w' & params' & dp' & j' & new & E & Ht & _ & _
                              & Hw' & _ & Hs & Hu & He); auto.
  - destruct max_pages as [m|]; [|reflexivity].
    apply Z.ltb_lt. specialize (Hm m eq_refl). simpl in Hm. lia.
  - apply chain_prefix_intro.
    + rewrite Htake. rewrite List.Forall_map. exact Hnn.
    + intros m Hmax. specialize (Hm m Hmax).
      apply Forall2_length in HF. simpl in HF, Hm. lia.
  - rewrite Hlast in Ht.
    rewrite (reduce_add_stops_on_null _ _ _ _ _ _ _ _ _ Ht) in E.
    exists w', (Request url (Some (params, d)) false :: new).
    rewrite E, Hres, Hs. repeat split; auto.
    cbn [map]. rewrite He, Htake. reflexivity.
Qed.

Lemma paginated_query_api_token_chain_witness :
  exists w' new,
    paginated_query_api sample_client "u" 0 None (fresh_world three_pages)
      = Some (Ok [JStr "a1"; JStr "a2"; JStr "b1"; JStr "c1"], w') /\
    wire w' = [] /\
    sent w' = new /\
    Forall (fun r => req_url r = "u") new /\
    map req_entries new
      = [Some ∅; Some {[ "page-token" := JStr "A" ]};
         Some {[ "page-token" := JStr "B" ]}].
Proof.
  apply (paginated_query_api_token_chain sample_client "u" 0 None
           (fresh_world three_pages) ∅
           [([JStr "a1"; JStr "a2"], JStr "A"); ([JStr "b1"], JStr "B")]
           [JStr "c1"] three_pages []).
  - reflexivity.
  - exact empty_has_no_token.
  - repeat constructor; apply sample_page_is_page.
  - repeat constructor; discriminate.
  - reflexivity.
  - discriminate.
Defined.

Lemma loop_to_yield_http_error self url params max_pages c tok w d r rest :
  within_limit max_pages c = true ->
  store w !! params = Some d ->
  wire w = r :: rest ->
  is_error_status r = true ->
  exists w',
    loop_to_yield self url params max_pages c tok w
      = (Raise (HTTPError (status_code r)), w') /\
    length (sent w') = length (sent w) + 1 /\
    wire w' = rest.
Proof.
  intros Hlim Hd Hw Hs. unfold loop_to_yield. rewrite Hlim.
  assert (Hq : forall w1 p1 d1,
    store w1 !! p1 = Some d1 -> wire w1 = r :: rest ->
    exists w',
      (response <- query_api url p1 (debug_requests self) ;;
       items <- getitem response "items" ;;
       ret (Yield items (GenSuspended url p1 max_pages c response))) w1
      = (Raise (HTTPError (status_code r)), w') /\
      length (sent w') = length (sent w1) + 1 /\ wire w' = rest).
  { intros w1 p1 d1 Hd1 Hw1.
    destruct (query_api_effect url p1 (debug_requests self) w1 d1 Hd1)
      as (o & w' & E & _ & _ & Hsent & Hwire & _).
    pose proof (query_api_http_error url p1 (debug_requests self) w1 d1 r rest
                  Hd1 Hw1 Hs) as Ho.
    rewrite E in Ho. simpl in Ho. subst o.
    exists w'. unfold bind at 1. rewrite E, Hsent, Hwire, Hw1, length_app.
    repeat split. }
  destruct (json_null_dec tok) as [->|Hn].
  - unfold bind at 1, ret at 1. simpl. apply (Hq w params d Hd Hw).
  - set (w1 := World (store w ++ [<["page-token" := tok]> d]) (wire w) (sent w)
                     (stdout w) (files w)).
    assert (E1 : match tok with
                 | JNull => ret params
                 | _ => with_page_token params tok
                 end w = (Ok (length (store w)), w1)).
    { destruct tok; try congruence;
        unfold with_page_token, bind, deref, alloc; rewrite Hd; reflexivity. }
    unfold bind at 1. rewrite E1.
    apply (Hq w1 (length (store w)) (<["page-token" := tok]> d)); [|exact Hw].
    simpl. apply list_lookup_middle. reflexivity.
Qed.

(** X9: when some pages have been fetched and the next response has an
    error status, paginated_query_api fails with the HTTPError of that
    status: the items of the pages fetched before are not returned.  One
    request was made for each page and one for the failed response. *)
Theorem paginated_query_api_fails_midway self url params max_pages w d
    (pages : list (list json * json)) (resps rest : list response)
    (bad : response) :
  store w !! params = Some d ->
  "page-token" ∉ dom d ->
  Forall2 is_page resps pages ->
  pages <> [] ->
  Forall (fun pg => snd pg <> JNull) pages ->
  wire w = resps ++ bad :: rest ->
  is_error_status bad = true ->
  (forall m, max_pages = Some m -> (Z.of_nat (length resps) < m)%Z) ->
  exists w',
    paginated_query_api self url params max_pages w
      = Some (Raise (HTTPError (status_code bad)), w') /\
    length (sent w') = length (sent w) + length resps + 1 /\
    wire w' = rest.
Proof.
  intros Hd Hk HF Hne Hnn Hw Hbad Hm.
  pose proof (Forall2_length _ _ _ HF) as Hlen.
  destruct pages as [|pg pages]; [congruence|].
  destruct resps as [|r resps]; [discriminate|].
  assert (Hall : Forall (fun t => t <> JNull) (snd pg :: map snd pages)).
  { change (snd pg :: map snd pages) with (map snd (pg :: pages)).
    rewrite List.Forall_map. exact Hnn. }
  destruct (pagination_prefix self url params max_pages w d r resps pg pages
              (bad :: rest) Hd Hk)
    as (w1 & params' & dp' & j' & new & E & Ht & Hd' & _ & Hw1 & _ & Hs & _
        & He); auto.
  - destruct max_pages as [m|]; [|reflexivity].
    apply Z.ltb_lt. specialize (Hm m eq_refl). simpl in Hm. lia.
  - apply chain_prefix_intro.
    + apply Forall_take. exact Hall.
    + intros m Hmax. specialize (Hm m Hmax). simpl in Hlen, Hm.
      injection Hlen as Hlen. lia.
  - assert (Hlast : List.last (map snd pages) (snd pg) <> JNull).
    { rewrite <- last_cons_default with (a := JNull).
      rewrite List.Forall_forall in Hall. apply Hall.
      destruct (exists_last (l := snd pg :: map snd pages)) as (l' & a & Hl);
        [discriminate|].
      rewrite Hl, last_last, <- Hl. rewrite Hl. apply in_or_app. right.
      left. reflexivity. }
    destruct (loop_to_yield_http_error self url params' max_pages
                (Z.of_nat (length pages) + 1)%Z
                (List.last (map snd pages) (snd pg)) w1 dp' bad rest)
      as (w' & E' & Hs' & Hw'); auto.
    { destruct max_pages as [m|]; [|reflexivity].
      apply Z.ltb_lt. specialize (Hm m eq_refl). simpl in Hlen, Hm.
      injection Hlen as Hlen. lia. }
    rewrite reduce_add_step,
      (next_suspended_token _ _ _ _ _ _ _ _ Ht Hlast), E' in E.
    exists w'. rewrite E, Hs', Hs, length_app. cbn [length].
    apply (f_equal (@length _)) in He.
    unfold token_entries in He. rewrite !length_map, length_take in He.
    cbn [length] in He. rewrite length_map in He.
    simpl in Hlen. injection Hlen as Hlen.
    repeat split; auto. lia.
Qed.

Lemma paginated_query_api_fails_midway_witness :
  exists w',
    paginated_query_api sample_client "u" 0 (Some 10%Z)
        (fresh_world [sample_page [JStr "a1"] (JStr "A");
                      Response 503 [] None])
      = Some (Raise (HTTPError 503), w') /\
    length (sent w') = 2 /\
    wire w' = [].
Proof.
  apply (paginated_query_api_fails_midway sample_client "u" 0 (Some 10%Z)
           (fresh_world [sample_page [JStr "a1"] (JStr "A");
                         Response 503 [] None]) ∅
           [([JStr "a1"], JStr "A")] [sample_page [JStr "a1"] (JStr "A")] []
           (Response 503 [] None)).
  - reflexivity.
  - exact empty_has_no_token.
  - repeat constructor; apply sample_page_is_page.
  - discriminate.
  - repeat constructor; discriminate.
  - reflexivity.
  - reflexivity.
  - intros m [= <-]. simpl. lia.
Defined.

(** Resuming after a page with page count [c], at most
    [max_pages - (c + 1)] further requests are made, all to the url. *)
Lemma reduce_add_bound self :
  forall fuel url params max_pages c j value w dp,
    length (wire w) < fuel ->
    store w !! params = Some dp ->
    exists o w' new,
      reduce_add fuel self (GenSuspended url params max_pages c j) value w
        = Some (o, w') /\
      sent w' = sent w ++ new /\
      Forall (fun r => req_url r = url) new /\
      (forall m, max_pages = Some m ->
         (Z.of_nat (length new) <= Z.max 0 (m - (c + 1)))%Z).
Proof.
  induction fuel as [|fuel IH]; intros url params max_pages c j value w dp
    Hfuel Hd; [lia|].
  rewrite reduce_add_step.
  assert (Hnone : forall o : outcome (list json), exists o' w' new,
            Some (o, w) = Some (o', w') /\
            sent w' = sent w ++ new /\
            Forall (fun r => req_url r = url) new /\
            (forall m, max_pages = Some m ->
               (Z.of_nat (length new) <= Z.max 0 (m - (c + 1)))%Z)).
  { intros o. exists o, w, []. rewrite app_nil_r. repeat split; auto.
    intros m _. simpl. lia. }
  destruct (subscript j "next_page_token") as [tok|e] eqn:Ht.
  2:{ cbn [next]. unfold bind, getitem, lift. rewrite Ht. apply Hnone. }
  destruct (json_null_dec tok) as [->|Hn].
  { cbn [next]. unfold bind, getitem, lift. rewrite Ht. apply Hnone. }
  rewrite (next_suspended_token _ _ _ _ _ _ _ _ Ht Hn).
  destruct (within_limit max_pages (c + 1)) eqn:Hlim.
  2:{ rewrite loop_to_yield_over_limit by exact Hlim. apply Hnone. }
  destruct (loop_to_yield_effect self url params max_pages (c + 1)%Z tok w dp Hd)
    as (o & w1 & extra & E & _ & Hst & Hf & Hs & Hle & Hy).
  rewrite E.
  assert (Hnew : exists new1, sent w1 = sent w ++ new1 /\
                   Forall (fun r => req_url r = url) new1 /\
                   length new1 <= 1).
  { destruct Hs as [Hs|Hs].
    - exists []. rewrite app_nil_r. repeat split; auto.
    - eexists. split; [exact Hs|]. split; [repeat constructor|]. simpl. lia. }
  destruct Hnew as (new1 & Hs1 & Hu1 & Hl1).
  assert (Hone : forall m, max_pages = Some m -> (c + 1 < m)%Z).
  { intros m ->. simpl in Hlim. apply Z.ltb_lt. exact Hlim. }
  assert (Hdone : forall o' : outcome (list json), exists o'' w' new,
            Some (o', w1) = Some (o'', w') /\
            sent w' = sent w ++ new /\
            Forall (fun r => req_url r = url) new /\
            (forall m, max_pages = Some m ->
               (Z.of_nat (length new) <= Z.max 0 (m - (c + 1)))%Z)).
  { intros o'. exists o', w1, new1. repeat split; auto.
    intros m Hmax. specialize (Hone m Hmax). lia. }
  destruct o as [[v g|]|e]; try apply Hdone.
  destruct (Hy v g eq_refl) as (Hlt & _ & Hd1 & j1 & ->).
  destruct (operator_add value v) as [value'|e]; try apply Hdone.
  destruct (IH url (page_params_addr w params tok) max_pages (c + 1)%Z j1
              value' w1 (page_params dp tok))
    as (o2 & w2 & new2 & E2 & Hs2 & Hu2 & Hb2); [lia|exact Hd1|].
  exists o2, w2, (new1 ++ new2). rewrite E2, Hs2, Hs1, app_assoc.
  repeat split; auto.
  - apply Forall_app; auto.
  - intros m Hmax. specialize (Hone m Hmax). specialize (Hb2 m Hmax).
    rewrite length_app. lia.
Qed.

(** The call from its start: at most [max_pages] requests, all to the
    url. *)
Lemma paginated_query_api_bound self url params max_pages w d :
  store w !! params = Some d ->
  exists o w' new,
    paginated_query_api self url params max_pages w = Some (o, w') /\
    sent w' = sent w ++ new /\
    Forall (fun r => req_url r = url) new /\
    (forall m, max_pages = Some m ->
       (Z.of_nat (length new) <= Z.max 0 m)%Z).
Proof.
  intros Hd.
  unfold paginated_query_api, paginated_query_api_iterator.
  rewrite reduce_add_step. cbn [next]. unfold bind at 1, deref. rewrite Hd.
  assert (Hnone : forall o : outcome (list json), exists o' w' new,
            Some (o, w) = Some (o', w') /\
            sent w' = sent w ++ new /\
            Forall (fun r => req_url r = url) new /\
            (forall m, max_pages = Some m ->
               (Z.of_nat (length new) <= Z.max 0 m)%Z)).
  { intros o. exists o, w, []. rewrite app_nil_r. repeat split; auto.
    intros m _. simpl. lia. }
  destruct (bool_decide ("page-token" ∈ dom d)); [apply Hnone|].
  destruct (within_limit max_pages 0) eqn:Hlim.
  2:{ rewrite loop_to_yield_over_limit by exact Hlim. apply Hnone. }
  destruct (loop_to_yield_effect self url params max_pages 0%Z JNull w d Hd)
    as (o & w1 & extra & E & _ & Hst & Hf & Hs & Hle & Hy).
  rewrite E.
  assert (Hnew : exists new1, sent w1 = sent w ++ new1 /\
                   Forall (fun r => req_url r = url) new1 /\
                   length new1 <= 1).
  { destruct Hs as [Hs|Hs].
    - exists []. rewrite app_nil_r. repeat split; auto.
    - eexists. split; [exact Hs|]. split; [repeat constructor|]. simpl. lia. }
  destruct Hnew as (new1 & Hs1 & Hu1 & Hl1).
  assert (Hone : forall m, max_pages = Some m -> (0 < m)%Z).
  { intros m ->. simpl in Hlim. apply Z.ltb_lt. exact Hlim. }
  assert (Hdone : forall o' : outcome (list json), exists o'' w' new,
            Some (o', w1) = Some (o'', w') /\
            sent w' = sent w ++ new /\
            Forall (fun r => req_url r = url) new /\
            (forall m, max_pages = Some m ->
               (Z.of_nat (length new) <= Z.max 0 m)%Z)).
  { intros o'. exists o', w1, new1. repeat split; auto.
    intros m Hmax. specialize (Hone m Hmax). lia. }
  destruct o as [[v g|]|e]; try apply Hdone.
  destruct (Hy v g eq_refl) as (Hlt & _ & Hd1 & j1 & ->).
  destruct (operator_add [] v) as [value'|e]; try apply Hdone.
  destruct (reduce_add_bound self (length (wire w)) url
              (page_params_addr w params JNull) max_pages 0%Z j1 value' w1
              (page_params d JNull))
    as (o2 & w2 & new2 & E2 & Hs2 & Hu2 & Hb2); [lia|exact Hd1|].
  exists o2, w2, (new1 ++ new2). rewrite E2, Hs2, Hs1, app_assoc.
  repeat split; auto.
  - apply Forall_app; auto.
  - intros m Hmax. specialize (Hone m Hmax). specialize (Hb2 m Hmax).
    rewrite length_app. lia.
Qed.

(** X10: whatever the responses and whatever the outcome,
    paginated_query_api with max_pages m makes at most m requests (none
    for m below 1), and all its requests go to the url it was given. *)
Theorem paginated_query_api_request_bound self url params (m : Z) w d :
  store w !! params = Some d ->
  exists o w' new,
    paginated_query_api self url params (Some m) w = Some (o, w') /\
    sent w' = sent w ++ new /\
    Forall (fun r => req_url r = url) new /\
    length new <= Z.to_nat m.
Proof.
  intros Hd.
  destruct (paginated_query_api_bound self url params (Some m) w d Hd)
    as (o & w' & new & E & Hs & Hu & Hb).
  exists o, w', new. repeat split; auto.
  specialize (Hb m eq_refl). lia.
Qed.

Lemma paginated_query_api_request_bound_witness :
  exists o w' new,
    paginated_query_api sample_client "u" 0 (Some 2%Z) (fresh_world three_pages)
      = Some (o, w') /\
    sent w' = new /\
    Forall (fun r => req_url r = "u") new /\
    length new <= 2.
Proof.
  apply (paginated_query_api_request_bound sample_client "u" 0 2%Z
           (fresh_world three_pages) ∅).
  reflexivity.
Defined.

(** X11: the iterator is lazy: one call of next makes at most one
    request, and exactly one when it yields a page; the generator it
    hands back still refers to a dictionary of the store, and no file is
    touched. *)
Theorem next_at_most_one_request self g w :
  gen_valid g w ->
  exists o w',
    next self g w = (o, w') /\
    (sent w' = sent w \/ exists r, sent w' = sent w ++ [r]) /\
    files w' = files w /\
    (forall v g', o = Ok (Yield v g') ->
       (exists r, sent w' = sent w ++ [r]) /\ gen_valid g' w').
Proof.
  intros Hv.
  assert (Hnone : forall o : outcome step,
            (forall v g', o <> Ok (Yield v g')) ->
            exists o' w',
              (o, w) = (o', w') /\
              (sent w' = sent w \/ exists r, sent w' = sent w ++ [r]) /\
              files w' = files w /\
              (forall v g', o' = Ok (Yield v g') ->
                 (exists r, sent w' = sent w ++ [r]) /\ gen_valid g' w')).
  { intros o Ho. exists o, w. repeat split; auto;
      exfalso; eapply Ho; eassumption. }
  assert (Hloop : forall url params max_pages c tok d,
            store w !! params = Some d ->
            exists o w',
              loop_to_yield self url params max_pages c tok w = (o, w') /\
              (sent w' = sent w \/ exists r, sent w' = sent w ++ [r]) /\
              files w' = files w /\
              (forall v g', o = Ok (Yield v g') ->
                 (exists r, sent w' = sent w ++ [r]) /\ gen_valid g' w')).
  { intros url params max_pages c tok d Hd.
    destruct (loop_to_yield_effect self url params max_pages c tok w d Hd)
      as (o & w1 & extra & E & _ & Hst & Hf & Hs & _ & Hy).
    exists o, w1. repeat split; auto.
    - destruct Hs as [Hs|Hs]; eauto.
    - destruct (Hy v g' H) as (_ & Hs' & _). eauto.
    - destruct (Hy v g' H) as (_ & _ & Hd1 & j & ->). simpl. eauto. }
  destruct g as [url params max_pages|url params max_pages c j|].
  - destruct Hv as [d Hd]. cbn [next]. unfold bind, deref. rewrite Hd.
    destruct (bool_decide ("page-token" ∈ dom d)).
    + apply Hnone. discriminate.
    + apply (Hloop url params max_pages 0%Z JNull d Hd).
  - destruct Hv as [d Hd]. cbn [next]. unfold bind, getitem, lift.
    destruct (subscript j "next_page_token") as [tok|e].
    + destruct (json_null_dec tok) as [->|Hn].
      * apply Hnone. discriminate.
      * replace (match tok with
                 | JNull => ret StopIteration
                 | _ => loop_to_yield self url params max_pages (c + 1)%Z tok
                 end w)
          with (loop_to_yield self url params max_pages (c + 1)%Z tok w)
          by (destruct tok; congruence || reflexivity).
        apply (Hloop url params max_pages (c + 1)%Z tok d Hd).
    + apply Hnone. discriminate.
  - apply Hnone. discriminate.
Qed.

Lemma next_at_most_one_request_witness :
  exists o w',
    next sample_client (paginated_query_api_iterator "u" 0 (Some 10%Z))
         (fresh_world three_pages) = (o, w') /\
    (sent w' = [] \/ exists r, sent w' = [r]) /\
    files w' = ∅ /\
    (forall v g', o = Ok (Yield v g') ->
       (exists r, sent w' = [r]) /\ gen_valid g' w').
Proof.
  apply (next_at_most_one_request sample_client
           (paginated_query_api_iterator "u" 0 (Some 10%Z))
           (fresh_world three_pages)).
  exists ∅. reflexivity.
Defined.

(** X12: when the first response is no error and decodes to j, but j has
    no list under 'items' (j is no object, has no such member, or the
    member is not a list), paginated_query_api fails after that one
    request: with the error of the subscript, or with TypeError when the
    member is not a list. *)
Theorem first_page_bad_items self url params max_pages w d r rest j :
  store w !! params = Some d ->
  "page-token" ∉ dom d ->
  within_limit max_pages 0 = true ->
  wire w = r :: rest ->
  is_error_status r = false ->
  decoded r = Some j ->
  (forall l, subscript j "items" <> Ok (JArr l)) ->
  exists w',
    paginated_query_api self url params max_pages w
      = Some (Raise (match subscript j "items" with
                     | Raise e => e
                     | Ok _ => TypeError
                     end), w') /\
    sent w' = sent w ++ [Request url (Some (params, d)) false] /\
    wire w' = rest.
Proof.
  intros Hd Hk Hlim Hw Hs Hj Hbad.
  destruct (query_api_ok url params (debug_requests self) w d r rest j
              Hd Hw Hs Hj) as (w' & E & _ & _ & Hsent & Hwire).
  exists w'. split; [|auto].
  unfold paginated_query_api, paginated_query_api_iterator.
  rewrite reduce_add_step. cbn [next]. unfold bind at 1, deref. rewrite Hd.
  rewrite bool_decide_eq_false_2 by exact Hk.
  unfold loop_to_yield. rewrite Hlim.
  unfold bind at 1, ret at 1. unfold bind at 1. rewrite E.
  unfold bind, getitem, lift, ret.
  destruct (subscript j "items") as [v|e]; [|reflexivity].
  destruct v; try reflexivity.
  destruct (Hbad l eq_refl).
Qed.

Lemma first_page_bad_items_witness :
  exists w',
    paginated_query_api sample_client "u" 0 (Some 10%Z)
        (fresh_world [Response 200 [] (Some (JArr []))])
      = Some (Raise TypeError, w') /\
    sent w' = [Request "u" (Some (0, ∅)) false] /\
    wire w' = [].
Proof.
  apply (first_page_bad_items sample_client "u" 0 (Some 10%Z)
           (fresh_world [Response 200 [] (Some (JArr []))]) ∅
           (Response 200 [] (Some (JArr []))) [] (JArr [])).
  - reflexivity.
  - exact empty_has_no_token.
  - reflexivity.
  - reflexivity.
  - reflexivity.
  - reflexivity.
  - discriminate.
Defined.

(** ** The resource operations *)

Lemma branch_has_no_token (b : string) :
  "page-token" ∉ dom ({[ "branch" := JStr b ]} : gmap string json).
Proof. rewrite dom_singleton_L. apply not_elem_of_singleton. discriminate. Qed.

(** X13: pipelines asks for one page only: when the response is a page,
    its items are returned whatever its token says, after a single
    request to the pipeline url of the project, made with a new
    dictionary that holds the branch, or nothing when no branch is
    given. *)
Theorem pipelines_single_page self branch w r rest items tok :
  wire w = r :: rest ->
  is_page r (items, tok) ->
  exists w',
    pipelines self branch w = Some (Ok items, w') /\
    wire w' = rest /\
    sent w' = sent w ++
      [Request (BASE_URL ++ "/project/gh/" ++ project_slug self ++ "/pipeline")%string
         (Some (length (store w),
                match branch with
                | Some b => {[ "branch" := JStr b ]}
                | None => ∅
                end))
         false].
Proof.
  intros Hw Hpg. unfold pipelines, alloc.
  set (d := match branch with
            | Some b => {[ "branch" := JStr b ]}
            | None => ∅
            end : gmap string json).
  set (url := (BASE_URL ++ "/project/gh/" ++ project_slug self ++ "/pipeline")%string).
  set (w1 := World (store w ++ [d]) (wire w) (sent w) (stdout w) (files w)).
  assert (Hd : store w1 !! length (store w) = Some d)
    by (simpl; apply list_lookup_middle; reflexivity).
  assert (Hk : "page-token" ∉ dom d).
  { unfold d. destruct branch; [apply branch_has_no_token|].
    exact empty_has_no_token. }
  destruct (paginated_query_api_pages self url (length (store w)) (Some 1%Z)
              w1 d r [] (items, tok) [] rest Hd Hk)
    as (w' & E & Hw' & Hs').
  { reflexivity. }
  { constructor; [exact Hpg|constructor]. }
  { right. reflexivity. }
  { exact Hw. }
  destruct (paginated_query_api_frame self url (length (store w)) (Some 1%Z)
              w1 d Hd) as (o & w'' & new & extra & E' & _ & Hs'' & Hnew).
  rewrite E in E'. injection E' as <- <-.
  exists w'. split; [rewrite E; simpl; rewrite app_nil_r; reflexivity|].
  split; [exact Hw'|].
  rewrite Hs'' in Hs'. rewrite length_app in Hs'. simpl in Hs'.
  destruct new as [|first [|second more]]; simpl in Hs'; try lia.
  destruct Hnew as [-> _]. exact Hs''.
Qed.

Lemma pipelines_single_page_witness :
  exists w',
    pipelines sample_client (Some "develop") (fresh_world three_pages)
      = Some (Ok [JStr "a1"; JStr "a2"], w') /\
    wire w' = tail three_pages /\
    sent w' =
      [Request "https://circleci.com/api/v2/project/gh/ethereum/solidity/pipeline"
         (Some (1, {[ "branch" := JStr "develop" ]})) false].
Proof.
  apply (pipelines_single_page sample_client (Some "develop")
           (fresh_world three_pages)
           (sample_page [JStr "a1"; JStr "a2"] (JStr "A")) (tail three_pages)
           [JStr "a1"; JStr "a2"] (JStr "A")).
  - reflexivity.
  - apply sample_page_is_page.
Defined.

(** A listing made with a new empty dictionary and the default limit. *)
Lemma default_listing_bound self url w :
  exists o w' new,
    paginated_query_api self url (length (store w)) (Some DEFAULT_MAX_PAGES)
        (snd (alloc ∅ w)) = Some (o, w') /\
    sent w' = sent w ++ new /\
    Forall (fun r => req_url r = url) new /\
    length new <= 10 /\
    (forall a, a < length (store w) -> store w' !! a = store w !! a).
Proof.
  set (w1 := snd (alloc ∅ w)).
  assert (Hd : store w1 !! length (store w) = Some ∅)
    by (simpl; apply list_lookup_middle; reflexivity).
  destruct (paginated_query_api_bound self url (length (store w))
              (Some DEFAULT_MAX_PAGES) w1 ∅ Hd)
    as (o & w' & new & E & Hs & Hu & Hb).
  destruct (paginated_query_api_frame self url (length (store w))
              (Some DEFAULT_MAX_PAGES) w1 ∅ Hd)
    as (o2 & w2 & new2 & extra & E2 & Hst & _).
  rewrite E in E2. injection E2 as <- <-.
  exists o, w', new. repeat split; auto.
  - specialize (Hb DEFAULT_MAX_PAGES eq_refl). unfold DEFAULT_MAX_PAGES in Hb.
    lia.
  - intros a Ha. rewrite Hst. simpl. rewrite <- app_assoc.
    apply lookup_app_l. exact Ha.
Qed.

(** X14: workflows, jobs and artifacts each come to an end having made
    at most ten requests, all to the url of the operation, whatever the
    server answers; the dictionaries that existed before the call are
    left as they were. *)
Theorem listings_request_bound self w :
  (forall pipeline_id, exists o w' new,
     workflows self pipeline_id w = Some (o, w') /\
     sent w' = sent w ++ new /\
     Forall (fun r => req_url r
               = (BASE_URL ++ "/pipeline/" ++ pipeline_id ++ "/workflow")%string)
            new /\
     length new <= 10 /\
     (forall a, a < length (store w) -> store w' !! a = store w !! a)) /\
  (forall workflow_id, exists o w' new,
     jobs self workflow_id w = Some (o, w') /\
     sent w' = sent w ++ new /\
     Forall (fun r => req_url r
               = (BASE_URL ++ "/workflow/" ++ workflow_id ++ "/job")%string)
            new /\
     length new <= 10 /\
     (forall a, a < length (store w) -> store w' !! a = store w !! a)) /\
  (forall job_number, exists o w' new,
     artifacts self job_number w = Some (o, w') /\
     sent w' = sent w ++ new /\
     Forall (fun r => req_url r
               = (BASE_URL ++ "/project/gh/" ++ project_slug self ++ "/"
                    ++ str_int job_number ++ "/artifacts")%string)
            new /\
     length new <= 10 /\
     (forall a, a < length (store w) -> store w' !! a = store w !! a)).
Proof.
  repeat split; intros id; apply default_listing_bound.
Qed.

(** ** Github.pull_request *)

(** X15: pull_request makes one GET to the pulls url of the project and
    the id, with a new empty dictionary; an error status gives the
    HTTPError, a body that is not JSON the decode error, and otherwise
    the decoded body is returned.  The dictionaries that existed before
    are left as they were. *)
Theorem pull_request_outcome self pr_id w r rest :
  wire w = r :: rest ->
  fst (Github.pull_request self pr_id w) =
    (if is_error_status r then Raise (HTTPError (status_code r))
     else match decoded r with
          | Some j => Ok j
          | None => Raise JSONDecodeError
          end) /\
  sent (snd (Github.pull_request self pr_id w)) =
    sent w ++ [Request (Github.pull_request_url self pr_id)
                       (Some (length (store w), ∅)) false] /\
  wire (snd (Github.pull_request self pr_id w)) = rest /\
  (forall a, a < length (store w) ->
     store (snd (Github.pull_request self pr_id w)) !! a = store w !! a).
Proof.
  intros Hw. unfold Github.pull_request.
  assert (Hl : forall (x : gmap string json),
            (store w ++ [x]) !! length (store w) = Some x)
    by (intros x; apply list_lookup_middle; reflexivity).
  destruct (Github.debug_requests self); run; simpl; rewrite Hl; simpl;
    rewrite Hw; simpl;
    (destruct (is_error_status r); simpl;
     [|destruct (decoded r) as [j|]; simpl; [try destruct j; simpl|]]);
    repeat split; auto; intros a Ha; apply lookup_app_l; exact Ha.
Qed.

Lemma pull_request_outcome_witness :
  fst (Github.pull_request (Github.Make "ethereum/solidity" false) 12345
         (fresh_world [Response 200 [] (Some (JObj [("number", JNum 12345)]))]))
    = Ok (JObj [("number", JNum 12345)]) /\
  sent (snd (Github.pull_request (Github.Make "ethereum/solidity" false) 12345
         (fresh_world [Response 200 [] (Some (JObj [("number", JNum 12345)]))])))
    = [Request "https://api.github.com/repos/ethereum/solidity/pulls/12345"
               (Some (1, ∅)) false] /\
  wire (snd (Github.pull_request (Github.Make "ethereum/solidity" false) 12345
         (fresh_world [Response 200 [] (Some (JObj [("number", JNum 12345)]))])))
    = [] /\
  (forall a, a < 1 ->
     store (snd (Github.pull_request (Github.Make "ethereum/solidity" false)
                   12345
                   (fresh_world
                      [Response 200 [] (Some (JObj [("number", JNum 12345)]))])))
       !! a
     = store (fresh_world
                [Response 200 [] (Some (JObj [("number", JNum 12345)]))]) !! a).
Proof.
  apply (pull_request_outcome (Github.Make "ethereum/solidity" false) 12345
           (fresh_world [Response 200 [] (Some (JObj [("number", JNum 12345)]))])
           (Response 200 [] (Some (JObj [("number", JNum 12345)]))) []).
  reflexivity.
Defined.

Lemma str_int_inj a b : str_int a = str_int b -> a = b.
Proof.
  unfold str_int. intros H.
  assert (Hn : forall n, Z.to_int n <> Decimal.Pos Decimal.Nil /\
                         Z.to_int n <> Decimal.Neg Decimal.Nil).
  { intros [|p|p]; simpl; split; try discriminate; intros [= Hp];
      exact (Unsigned.to_uint_nonnil p Hp). }
  apply DecimalZ.to_int_inj.
  assert (Hs : Some (Z.to_int a) = Some (Z.to_int b)).
  { rewrite <- (NilZero.isi (Z.to_int a)), <- (NilZero.isi (Z.to_int b));
      try apply Hn. rewrite H. reflexivity. }
  injection Hs. auto.
Qed.

Lemma string_app_inv_head (s a b : string) :
  (s ++ a = s ++ b)%string -> a = b.
Proof.
  induction s as [|c s IH]; simpl; [auto|]. intros [= H]. auto.
Qed.

(** X16: the pulls url tells the pull requests of a project apart:
    different ids give different urls. *)
Theorem pull_request_url_distinct self a b :
  a <> b ->
  Github.pull_request_url self a <> Github.pull_request_url self b.
Proof.
  intros Hab H. apply Hab. unfold Github.pull_request_url in H.
  repeat apply string_app_inv_head in H.
  apply str_int_inj. exact H.
Qed.

Lemma pull_request_url_distinct_witness :
  Github.pull_request_url (Github.Make "ethereum/solidity" false) 10
    <> Github.pull_request_url (Github.Make "ethereum/solidity" false) (-10).
Proof.
  apply (pull_request_url_distinct (Github.Make "ethereum/solidity" false)
           10 (-10)).
  lia.
Defined.

(** ** latest_item and sorted, further *)

(** X17: sorted returns the items rearranged, none lost and none added,
    so that no item stands before one created earlier. *)
Theorem sorted_ascending_permutation items :
  sortable items ->
  exists s,
    sorted items = Ok s /\
    Permutation items s /\
    StronglySorted created_at_le s.
Proof.
  intros Hs.
  destruct (sorted_sortable items Hs) as (s & E & Hp & Hss & Hf).
  exists (map snd s). repeat split; auto.
  clear - Hss Hf.
  induction Hss as [|x s Hss IH Hx]; simpl; [constructor|].
  apply Forall_cons_1 in Hf as [Hkx Hf].
  constructor; [apply IH; exact Hf|].
  rewrite List.Forall_map.
  rewrite List.Forall_forall in Hx, Hf. apply List.Forall_forall.
  intros y Hy. exists (fst x), (fst y).
  repeat split; auto. apply (Hx y Hy).
Qed.

Lemma sorted_ascending_permutation_witness :
  exists s,
    sorted two_items = Ok s /\
    Permutation two_items s /\
    StronglySorted created_at_le s.
Proof.
  apply (sorted_ascending_permutation two_items).
  intros a b [<-|[<-|[]]] [<-|[<-|[]]]; do 3 eexists; repeat split.
Defined.

(** The head of the sorted list is the first of the elements with the
    least key: those before it in the input have a greater key, those
    after it none smaller. *)
Lemma sort_by_key_head :
  forall l,
    (forall x y, In x l -> In y l -> exists r, py_lt (fst x) (fst y) = Ok r) ->
    forall x s, sort_by_key l = Ok (x :: s) ->
      exists pre post,
        l = pre ++ x :: post /\
        Forall (fun y => py_lt (fst x) (fst y) = Ok true) pre /\
        Forall (fun y => py_lt (fst y) (fst x) = Ok false) post.
Proof.
  induction l as [|a l IH]; intros Hc x s E; [discriminate|].
  simpl in E.
  destruct (sort_by_key_sorted l) as (s' & E' & Hp & _).
  { intros u v Hu Hv. apply Hc; right; assumption. }
  rewrite E' in E.
  destruct s' as [|h t].
  - apply Permutation_sym, Permutation_nil in Hp. subst l.
    simpl in E. injection E as <- <-.
    exists [], []. repeat split; constructor.
  - destruct (IH (fun u v Hu Hv => Hc u v (or_intror Hu) (or_intror Hv))
                h t E') as (pre & post & Hl & Hpre & Hpost).
    simpl in E.
    assert (Hh : In h l).
    { eapply Permutation_in; [symmetry; exact Hp|left; reflexivity]. }
    destruct (Hc h a (or_intror Hh) (or_introl eq_refl)) as [r Hr].
    rewrite Hr in E. destruct r.
    + destruct (insert_by_key a t); [|discriminate].
      injection E as <- <-.
      exists (a :: pre), post. rewrite Hl. repeat split; auto.
    + injection E as <- <-.
      exists [], l. repeat split; [constructor|].
      apply List.Forall_forall. intros y Hy.
      apply (py_lt_false_trans (fst a) (fst h) (fst y)); [exact Hr|].
      rewrite Hl in Hy. apply in_app_or in Hy as [Hy|[<-|Hy]].
      * rewrite List.Forall_forall in Hpre. apply py_lt_asym, Hpre, Hy.
      * destruct (Hc h h (or_intror Hh) (or_intror Hh)) as [[|] Hhh];
          [|exact Hhh].
        pose proof (py_lt_asym _ _ Hhh). congruence.
      * rewrite List.Forall_forall in Hpost. apply Hpost, Hy.
Qed.

(** X18: among the items created earliest, latest_item returns the one
    that comes first in the input: every item before it was created
    strictly later, and no item after it was created earlier. *)
Theorem latest_item_first_of_earliest items :
  sortable items ->
  items <> [] ->
  exists pre x post k,
    items = pre ++ x :: post /\
    latest_item items = Ok (Some x) /\
    subscript x "created_at" = Ok k /\
    (forall y ky, In y pre -> subscript y "created_at" = Ok ky ->
                  py_lt k ky = Ok true) /\
    (forall y ky, In y post -> subscript y "created_at" = Ok ky ->
                  py_lt ky k = Ok false).
Proof.
  intros Hs Hne.
  destruct (decorate_sortable items) as (l & E & Hm & Hf).
  { intros a Ha. destruct (Hs a a Ha Ha) as (ka & _ & _ & Hka & _). eauto. }
  assert (Hc : forall x y, In x l -> In y l ->
                 exists r, py_lt (fst x) (fst y) = Ok r).
  { intros x y Hx Hy.
    rewrite List.Forall_forall in Hf.
    pose proof (Hf x Hx) as Hfx. pose proof (Hf y Hy) as Hfy.
    destruct (Hs (snd x) (snd y)) as (ka & kb & r & Ha & Hb & Hr).
    - rewrite <- Hm. apply in_map. exact Hx.
    - rewrite <- Hm. apply in_map. exact Hy.
    - exists r. congruence. }
  destruct (sort_by_key_sorted l Hc) as (s & E' & Hp & _).
  destruct s as [|x s].
  { apply Permutation_sym, Permutation_nil in Hp. subst l.
    simpl in Hm. congruence. }
  destruct (sort_by_key_head l Hc x s E') as (pre & post & Hl & Hpre & Hpost).
  assert (Hkeys : forall (part : list (json * json)) y ky,
            (forall p, In p part -> In p l) ->
            In y (map snd part) -> subscript y "created_at" = Ok ky ->
            exists p, In p part /\ fst p = ky).
  { intros part y ky Hsub Hy Hky.
    apply in_map_iff in Hy as (p & <- & Hin).
    exists p. split; [exact Hin|].
    rewrite List.Forall_forall in Hf. pose proof (Hf p (Hsub p Hin)).
    congruence. }
  exists (map snd pre), (snd x), (map snd post), (fst x).
  split; [rewrite <- Hm, Hl, map_app; reflexivity|].
  split; [unfold latest_item, sorted; rewrite E, E'; reflexivity|].
  split.
  { rewrite List.Forall_forall in Hf. apply Hf. rewrite Hl.
    apply in_or_app. right. left. reflexivity. }
  split.
  - intros y ky Hy Hky.
    destruct (Hkeys pre y ky) as (p & Hin & <-); auto.
    { intros p Hin. rewrite Hl. apply in_or_app. left. exact Hin. }
    rewrite List.Forall_forall in Hpre. apply Hpre, Hin.
  - intros y ky Hy Hky.
    destruct (Hkeys post y ky) as (p & Hin & <-); auto.
    { intros p Hin. rewrite Hl. apply in_or_app. right. right. exact Hin. }
    rewrite List.Forall_forall in Hpost. apply Hpost, Hin.
Qed.

Lemma latest_item_first_of_earliest_witness :
  exists pre x post k,
    [ JObj [("created_at", JStr "2020"); ("id", JNum 1)];
      JObj [("created_at", JStr "2019"); ("id", JNum 2)];
      JObj [("created_at", JStr "2019"); ("id", JNum 3)] ]
      = pre ++ x :: post /\
    latest_item
      [ JObj [("created_at", JStr "2020"); ("id", JNum 1)];
        JObj [("created_at", JStr "2019"); ("id", JNum 2)];
        JObj [("created_at", JStr "2019"); ("id", JNum 3)] ] = Ok (Some x) /\
    subscript x "created_at" = Ok k /\
    (forall y ky, In y pre -> subscript y "created_at" = Ok ky ->
                  py_lt k ky = Ok true) /\
    (forall y ky, In y post -> subscript y "created_at" = Ok ky ->
                  py_lt ky k = Ok false).
Proof.
  apply (latest_item_first_of_earliest
           [ JObj [("created_at", JStr "2020"); ("id", JNum 1)];
             JObj [("created_at", JStr "2019"); ("id", JNum 2)];
             JObj [("created_at", JStr "2019"); ("id", JNum 3)] ]).
  - intros a b [<-|[<-|[<-|[]]]] [<-|[<-|[<-|[]]]];
      do 3 eexists; repeat split.
  - discriminate.
Defined.

(** X19: when every item is an object and one of them has no created_at
    member, latest_item raises KeyError('created_at'), wherever that item
    stands and whatever the other keys are: the keys are all computed
    before any is compared. *)
Theorem latest_item_missing_created_at items :
  Forall (fun item => exists members, item = JObj members) items ->
  (exists members,
     In (JObj members) items /\ members_get "created_at" members = None) ->
  latest_item items = Raise (KeyError "created_at").
Proof.
  intros Hobj (members & Hin & Hnone).
  unfold latest_item, sorted.
  assert (E : decorate items = Raise (KeyError "created_at")).
  { induction items as [|item items IH]; [destruct Hin|].
    apply Forall_cons_1 in Hobj as [[m ->] Hobj]. simpl.
    destruct (members_get "created_at" m) as [k|] eqn:Hk; [|reflexivity].
    destruct Hin as [[= ->]|Hin]; [congruence|].
    rewrite (IH Hobj Hin). reflexivity. }
  rewrite E. reflexivity.
Qed.

Lemma latest_item_missing_created_at_witness :
  latest_item [ JObj [("created_at", JStr "2020")]; JObj [("id", JNum 2)] ]
    = Raise (KeyError "created_at").
Proof.
  apply (latest_item_missing_created_at
           [ JObj [("created_at", JStr "2020")]; JObj [("id", JNum 2)] ]).
  - repeat constructor; eexists; reflexivity.
  - exists [("id", JNum 2)]. split; [right; left; reflexivity|reflexivity].
Defined.

Lemma py_lt_kind_mismatch a b ka kb :
  key_kind a = Some ka -> key_kind b = Some kb -> ka <> kb ->
  py_lt a b = Raise TypeError.
Proof.
  destruct a, b; simpl; intros Ha Hb H; try discriminate;
    injection Ha as <-; injection Hb as <-; congruence.
Qed.

Lemma py_lt_raises_type_error a b e : py_lt a b = Raise e -> e = TypeError.
Proof.
  unfold py_lt.
  destruct a, b; simpl; try congruence.
Qed.

Lemma insert_by_key_outcome x :
  forall l,
    match insert_by_key x l with
    | Ok s => Permutation (x :: l) s
    | Raise e => e = TypeError
    end.
Proof.
  induction l as [|y l IH]; simpl; [reflexivity|].
  destruct (py_lt (fst y) (fst x)) as [[|]|e] eqn:Hlt.
  - destruct (insert_by_key x l) as [r|e]; [|exact IH].
    rewrite perm_swap. constructor. exact IH.
  - reflexivity.
  - apply (py_lt_raises_type_error _ _ _ Hlt).
Qed.

Lemma sort_by_key_outcome :
  forall l,
    match sort_by_key l with
    | Ok s => Permutation l s
    | Raise e => e = TypeError
    end.
Proof.
  induction l as [|x l IH]; simpl; [constructor|].
  destruct (sort_by_key l) as [s|e]; [|exact IH].
  pose proof (insert_by_key_outcome x s) as Hi.
  destruct (insert_by_key x s) as [s'|e]; [|exact Hi].
  rewrite <- Hi. constructor. exact IH.
Qed.

Lemma sort_by_key_mixed :
  forall l,
    Forall (fun p => is_Some (key_kind (fst p))) l ->
    (exists x y, In x l /\ In y l /\ key_kind (fst x) <> key_kind (fst y)) ->
    sort_by_key l = Raise TypeError.
Proof.
  induction l as [|a l IH]; intros Hk (x & y & Hx & Hy & Hxy);
    [destruct Hx|].
  apply Forall_cons_1 in Hk as [[ka Hka] Hk].
  simpl. pose proof (sort_by_key_outcome l) as Hout.
  destruct (sort_by_key l) as [s|e] eqn:E; [|congruence].
  assert (Hsame : forall u v, In u l -> In v l ->
                    key_kind (fst u) = key_kind (fst v)).
  { intros u v Hu Hv.
    destruct (decide (key_kind (fst u) = key_kind (fst v))) as [|Hne];
      [assumption|].
    exfalso. assert (Hr : Ok s = Raise TypeError)
      by (apply (IH Hk); exists u, v; auto).
    discriminate Hr. }
  assert (Hother : exists z, In z l /\ key_kind (fst z) <> Some ka).
  { destruct Hx as [<-|Hx], Hy as [<-|Hy].
    - congruence.
    - exists y. split; [exact Hy|congruence].
    - exists x. split; [exact Hx|congruence].
    - destruct (Hxy (Hsame x y Hx Hy)). }
  destruct Hother as (z & Hz & Hzk).
  destruct s as [|h t].
  { apply Permutation_sym, Permutation_nil in Hout. subst l. destruct Hz. }
  assert (Hh : In h l).
  { eapply Permutation_in; [symmetry; exact Hout|left; reflexivity]. }
  rewrite List.Forall_forall in Hk. destruct (Hk h Hh) as [kh Hkh].
  simpl. rewrite (py_lt_kind_mismatch (fst h) (fst a) kh ka Hkh Hka);
    [reflexivity|].
  intros ->. apply Hzk. rewrite (Hsame z h Hz Hh). exact Hkh.
Qed.

(** X20: when every item has a created_at that is a string or a number
    and both kinds occur, latest_item raises TypeError: a string and a
    number do not compare. *)
Theorem latest_item_mixed_keys items :
  (forall item, In item items ->
     exists k, subscript item "created_at" = Ok k /\ is_Some (key_kind k)) ->
  (exists a b ka kb,
     In a items /\ In b items /\
     subscript a "created_at" = Ok ka /\ subscript b "created_at" = Ok kb /\
     key_kind ka = Some true /\ key_kind kb = Some false) ->
  latest_item items = Raise TypeError.
Proof.
  intros Hall (a & b & ka & kb & Ha & Hb & Hka & Hkb & Hsa & Hsb).
  destruct (decorate_sortable items) as (l & E & Hm & Hf).
  { intros item Hin. destruct (Hall item Hin) as (k & Hk & _). eauto. }
  unfold latest_item, sorted. rewrite E.
  rewrite List.Forall_forall in Hf.
  assert (Hpair : forall item k, In item items ->
            subscript item "created_at" = Ok k ->
            exists p, In p l /\ fst p = k).
  { intros item k Hin Hk. rewrite <- Hm in Hin.
    apply in_map_iff in Hin as (p & <- & Hp).
    exists p. split; [exact Hp|]. pose proof (Hf p Hp). congruence. }
  rewrite sort_by_key_mixed; [reflexivity| |].
  - apply List.Forall_forall. intros p Hp.
    destruct (Hall (snd p)) as (k & Hk & Hkind).
    + rewrite <- Hm. apply in_map. exact Hp.
    + pose proof (Hf p Hp). congruence.
  - destruct (Hpair a ka Ha Hka) as (pa & Hpa & <-).
    destruct (Hpair b kb Hb Hkb) as (pb & Hpb & <-).
    exists pa, pb. repeat split; auto. congruence.
Qed.

Lemma latest_item_mixed_keys_witness :
  latest_item [ JObj [("created_at", JStr "2020-01-01")];
                JObj [("created_at", JNum 1577836800)] ]
    = Raise TypeError.
Proof.
  apply (latest_item_mixed_keys
           [ JObj [("created_at", JStr "2020-01-01")];
             JObj [("created_at", JNum 1577836800)] ]).
  - intros item [<-|[<-|[]]]; eexists; (split; [reflexivity|]);
      eexists; reflexivity.
  - exists (JObj [("created_at", JStr "2020-01-01")]),
      (JObj [("created_at", JNum 1577836800)]),
      (JStr "2020-01-01"), (JNum 1577836800).
    split; [left; reflexivity|].
    split; [right; left; reflexivity|].
    repeat split.
Defined.
